(** * XModem file transfer: a shallow embedding of the protocol engine

    The repository holds two implementations of the same protocol: a
    procedural one (free functions, a process-wide [useCRC] flag and serial
    handle), embedded at top level, and the class [XModem] of
    [zad2/src/x.cpp], embedded in [Module XModem] where its text differs.

    Machine integers are modelled as [Z] with the wrap-around of each C++
    assignment written out.  The serial port is modelled by the outcomes of
    the successive [ReadFile] calls and by the list of buffers handed to
    [WriteFile]; console output is left out. *)

From Stdlib Require Import ZArith List Bool Lia Permutation.
From Stdlib Require String.
Import ListNotations.

Local Open Scope Z_scope.

(** ** Protocol constants *)

Definition SOH : Z := 0x01.
Definition EOT : Z := 0x04.
Definition ACK : Z := 0x06.
Definition NAK : Z := 0x15.
Definition CAN : Z := 0x18.
Definition C : Z := 0x43.

Definition BLOCK_SIZE : nat := 128.
Definition MAX_RETRIES : nat := 10.

(** Conversions to the unsigned 8 and 16 bit types. *)
Definition u8 (z : Z) : Z := z mod 256.
Definition u16 (z : Z) : Z := z mod 65536.

Definition is_u8 (z : Z) : Prop := 0 <= z < 256.
Definition is_u16 (z : Z) : Prop := 0 <= z < 65536.

(** ** ChecksumEngine *)

Definition crc16tab : list Z := [
    0x0000; 0x1021; 0x2042; 0x3063; 0x4084; 0x50a5; 0x60c6; 0x70e7;
    0x8108; 0x9129; 0xa14a; 0xb16b; 0xc18c; 0xd1ad; 0xe1ce; 0xf1ef;
    0x1231; 0x0210; 0x3273; 0x2252; 0x52b5; 0x4294; 0x72f7; 0x62d6;
    0x9339; 0x8318; 0xb37b; 0xa35a; 0xd3bd; 0xc39c; 0xf3ff; 0xe3de;
    0x2462; 0x3443; 0x0420; 0x1401; 0x64e6; 0x74c7; 0x44a4; 0x5485;
    0xa56a; 0xb54b; 0x8528; 0x9509; 0xe5ee; 0xf5cf; 0xc5ac; 0xd58d;
    0x3653; 0x2672; 0x1611; 0x0630; 0x76d7; 0x66f6; 0x5695; 0x46b4;
    0xb75b; 0xa77a; 0x9719; 0x8738; 0xf7df; 0xe7fe; 0xd79d; 0xc7bc;
    0x48c4; 0x58e5; 0x6886; 0x78a7; 0x0840; 0x1861; 0x2802; 0x3823;
    0xc9cc; 0xd9ed; 0xe98e; 0xf9af; 0x8948; 0x9969; 0xa90a; 0xb92b;
    0x5af5; 0x4ad4; 0x7ab7; 0x6a96; 0x1a71; 0x0a50; 0x3a33; 0x2a12;
    0xdbfd; 0xcbdc; 0xfbbf; 0xeb9e; 0x9b79; 0x8b58; 0xbb3b; 0xab1a;
    0x6ca6; 0x7c87; 0x4ce4; 0x5cc5; 0x2c22; 0x3c03; 0x0c60; 0x1c41;
    0xedae; 0xfd8f; 0xcdec; 0xddcd; 0xad2a; 0xbd0b; 0x8d68; 0x9d49;
    0x7e97; 0x6eb6; 0x5ed5; 0x4ef4; 0x3e13; 0x2e32; 0x1e51; 0x0e70;
    0xff9f; 0xefbe; 0xdfdd; 0xcffc; 0xbf1b; 0xaf3a; 0x9f59; 0x8f78;
    0x9188; 0x81a9; 0xb1ca; 0xa1eb; 0xd10c; 0xc12d; 0xf14e; 0xe16f;
    0x1080; 0x00a1; 0x30c2; 0x20e3; 0x5004; 0x4025; 0x7046; 0x6067;
    0x83b9; 0x9398; 0xa3fb; 0xb3da; 0xc33d; 0xd31c; 0xe37f; 0xf35e;
    0x02b1; 0x1290; 0x22f3; 0x32d2; 0x4235; 0x5214; 0x6277; 0x7256;
    0xb5ea; 0xa5cb; 0x95a8; 0x8589; 0xf56e; 0xe54f; 0xd52c; 0xc50d;
    0x34e2; 0x24c3; 0x14a0; 0x0481; 0x7466; 0x6447; 0x5424; 0x4405;
    0xa7db; 0xb7fa; 0x8799; 0x97b8; 0xe75f; 0xf77e; 0xc71d; 0xd73c;
    0x26d3; 0x36f2; 0x0691; 0x16b0; 0x6657; 0x7676; 0x4615; 0x5634;
    0xd94c; 0xc96d; 0xf90e; 0xe92f; 0x99c8; 0x89e9; 0xb98a; 0xa9ab;
    0x5844; 0x4865; 0x7806; 0x6827; 0x18c0; 0x08e1; 0x3882; 0x28a3;
    0xcb7d; 0xdb5c; 0xeb3f; 0xfb1e; 0x8bf9; 0x9bd8; 0xabbb; 0xbb9a;
    0x4a75; 0x5a54; 0x6a37; 0x7a16; 0x0af1; 0x1ad0; 0x2ab3; 0x3a92;
    0xfd2e; 0xed0f; 0xdd6c; 0xcd4d; 0xbdaa; 0xad8b; 0x9de8; 0x8dc9;
    0x7c26; 0x6c07; 0x5c64; 0x4c45; 0x3ca2; 0x2c83; 0x1ce0; 0x0cc1;
    0xef1f; 0xff3e; 0xcf5d; 0xdf7c; 0xaf9b; 0xbfba; 0x8fd9; 0x9ff8;
    0x6e17; 0x7e36; 0x4e55; 0x5e74; 0x2e93; 0x3eb2; 0x0ed1; 0x1ef0
  ].

(** [uint8_t sum = 0; for (byte : data) sum += byte;] *)
Definition calculateChecksum (data : list Z) : Z :=
  fold_left (fun sum byte => u8 (sum + byte)) data 0.

(** One round of the loop of [calculateCRC16]; the operands are promoted
    to [int] and the assignment to [crc] truncates to 16 bits. *)
Definition crc16_step (crc byte : Z) : Z :=
  u16 (Z.lxor (Z.shiftl crc 8)
              (nth (Z.to_nat (Z.land (Z.lxor (Z.shiftr crc 8) byte) 0xFF))
                   crc16tab 0)).

(** [uint16_t crc = 0; for (byte : data) crc = (crc << 8) ^ crc16tab[...];] *)
Definition calculateCRC16 (data : list Z) : Z :=
  fold_left crc16_step data 0.

(** *** Reference CRC16-CCITT, following the specification's words

    Polynomial 0x1021, initial value 0, most significant bit first, no
    reflection and no final xor.  [ccitt_shift] is one bit of polynomial
    division on a 16-bit register. *)
Definition ccitt_shift (r : Z) : Z :=
  if Z.testbit r 15
  then Z.lxor (u16 (Z.shiftl r 1)) 0x1021
  else u16 (Z.shiftl r 1).

Definition ccitt_shift8 (r : Z) : Z :=
  ccitt_shift (ccitt_shift (ccitt_shift (ccitt_shift
    (ccitt_shift (ccitt_shift (ccitt_shift (ccitt_shift r))))))).

(** Entry [i] of the canonical table is the register after dividing the
    byte [i] placed in the high half. *)
Definition ccitt_table_entry (i : nat) : Z :=
  ccitt_shift8 (Z.shiftl (Z.of_nat i) 8).

Definition ccitt_table : list Z := map ccitt_table_entry (seq 0 256).

(** The bit-at-a-time CRC: xor the byte into the high half, shift 8 times. *)
Definition ccitt_byte (r byte : Z) : Z :=
  ccitt_shift8 (Z.lxor r (Z.shiftl byte 8)).

Definition crc16_ccitt (data : list Z) : Z :=
  fold_left ccitt_byte data 0.

(** ** The serial port and the local clock

    [ReadFile] is an operating-system call: its outcome is decided by the
    environment.  The model gives the environment's answers to the
    successive [ReadFile] calls as a list, consumed one answer per call;
    once the list is used up the peer has gone silent and every further read
    times out with no bytes.  A timeout is [ReadOk []]. *)

Inductive ReadOutcome : Type :=
| ReadFailed                      (* ReadFile returned FALSE *)
| ReadOk (bytes : list Z).        (* ReadFile returned TRUE with these bytes *)

Record World : Type := mkWorld {
  rx : list ReadOutcome;          (* answers to the reads still to come *)
  tx : list (list Z);             (* buffers handed to WriteFile, oldest first *)
  clock : list Z                  (* readings of steady_clock::now() still to
                                     come, in nanoseconds *)
}.

Definition Chan (A : Type) : Type := World -> A * World.

Definition ret {A : Type} (a : A) : Chan A := fun w => (a, w).

Definition bind {A B : Type} (m : Chan A) (k : A -> Chan B) : Chan B :=
  fun w => let (a, w') := m w in k a w'.

Declare Scope chan_scope.
Delimit Scope chan_scope with chan.
Notation "x <- m ;; k" := (bind m (fun x => k))
  (at level 61, m at next level, right associativity) : chan_scope.
Notation "' p <- m ;; k" := (bind m (fun x => match x with p => k end))
  (at level 61, p pattern, m at next level, right associativity)
  : chan_scope.
Notation "m ;; k" := (bind m (fun _ => k))
  (at level 61, right associativity) : chan_scope.
Local Open Scope chan_scope.

(** The operating system never delivers more than [count] bytes. *)
Definition ReadFile (count : nat) : Chan (bool * list Z) := fun w =>
  match rx w with
  | [] => ((true, []), w)
  | ReadFailed :: rest =>
      ((false, []), {| rx := rest; tx := tx w; clock := clock w |})
  | ReadOk bytes :: rest =>
      ((true, firstn count bytes),
       {| rx := rest; tx := tx w; clock := clock w |})
  end.

(** The return values of [WriteFile] are ignored by every caller; the model
    records the buffer the engine asked to send. *)
Definition WriteFile (buffer : list Z) : Chan unit := fun w =>
  (tt, {| rx := rx w; tx := tx w ++ [buffer]; clock := clock w |}).

Definition steady_now : Chan Z := fun w =>
  match clock w with
  | [] => (0, w)
  | t :: rest => (t, {| rx := rx w; tx := tx w; clock := rest |})
  end.

(** [buffer.resize(count)] on a fresh vector zero-fills it; [ReadFile]
    overwrites the first [bytesRead] bytes. *)
Definition readWithTimeout (count : nat) : Chan (Z * list Z) :=
  '(ok, got) <- ReadFile count ;;
  let buffer := got ++ repeat 0 (count - length got) in
  if negb ok then ret (-1, buffer)
  else ret (Z.of_nat (length got), buffer).

(** [byte] is passed by reference and only assigned when one byte was read:
    the function returns the result together with the value [byte] has
    afterwards. *)
Definition readByteWithTimeout (byte : Z) : Chan (Z * Z) :=
  '(result, buffer) <- readWithTimeout 1 ;;
  ret (result, if result =? 1 then nth 0 buffer 0 else byte).

Definition writeAll (buffer : list Z) : Chan unit := WriteFile buffer.

Definition writeByte (byte : Z) : Chan unit := writeAll [byte].

(** ** The output sink

    [std::ofstream]: when the file could not be opened the stream is in a
    failed state and every write is dropped. *)
Record ofstream : Type := mkOfstream {
  fail : bool;
  contents : list Z
}.

Definition ofstream_open (openable : bool) : ofstream :=
  {| fail := negb openable; contents := [] |}.

Definition ofstream_write (f : ofstream) (data : list Z) : ofstream :=
  if fail f then f else {| fail := false; contents := contents f ++ data |}.

(** What a run of an engine function has produced within a bound on the
    number of loop iterations. *)
Inductive Outcome : Type :=
| Returned (result : bool)
| Running.                        (* the bound ran out inside a loop *)

(** ** ReceiverEngine *)

(** The variables of [receiveFile] that live across iterations of the
    block-reception loop.  [blockNumber] and [blockNumberComplement] are
    assigned before every use and are kept local to an iteration. *)
Record Receiver : Type := mkReceiver {
  file : ofstream;
  expectedBlock : Z;
  headerByte : Z;
  receiving : bool
}.

Definition set_headerByte (s : Receiver) (b : Z) : Receiver :=
  {| file := file s; expectedBlock := expectedBlock s;
     headerByte := b; receiving := receiving s |}.

Definition stop_receiving (s : Receiver) : Receiver :=
  {| file := file s; expectedBlock := expectedBlock s;
     headerByte := headerByte s; receiving := false |}.

(** [file.write(dataBlock...); ...; expectedBlock++;] *)
Definition accept_block (s : Receiver) (dataBlock : list Z) : Receiver :=
  {| file := ofstream_write (file s) dataBlock;
     expectedBlock := u8 (expectedBlock s + 1);
     headerByte := headerByte s; receiving := receiving s |}.

(** [if (useCRC) writeByte(C); else writeByte(NAK);] *)
Definition announceMode (useCRC : bool) : Chan unit :=
  if useCRC then writeByte C else writeByte NAK.

(** Reading the trailer and comparing it: [None] when a trailer byte could
    not be read, otherwise [Some checksumValid]. *)
Definition readTrailer (useCRC : bool) (dataBlock : list Z)
  : Chan (option bool) :=
  if useCRC then
    '(rh, crcHigh) <- readByteWithTimeout 0 ;;
    if rh <=? 0 then ret None else
    '(rl, crcLow) <- readByteWithTimeout 0 ;;
    if rl <=? 0 then ret None else
    let receivedCRC := u16 (Z.lor (Z.shiftl (u16 crcHigh) 8) crcLow) in
    let calculatedCRC := calculateCRC16 dataBlock in
    ret (Some (receivedCRC =? calculatedCRC))
  else
    '(r, receivedChecksum) <- readByteWithTimeout 0 ;;
    if r <=? 0 then ret None else
    let calculatedChecksum := calculateChecksum dataBlock in
    ret (Some (receivedChecksum =? calculatedChecksum)).

(** "Odczyt naglowka nastepnego pakietu": the end of an iteration that
    acknowledged a block. *)
Definition readNextHeader (s : Receiver) : Chan Receiver :=
  '(r, hb) <- readByteWithTimeout (headerByte s) ;;
  let s := set_headerByte s hb in
  if r <=? 0 then writeByte NAK ;; ret s
  else if hb =? EOT then writeByte ACK ;; ret (stop_receiving s)
  else if negb (hb =? SOH) then writeByte NAK ;; ret s
  else ret s.

(** One iteration of [while (receiving) { ... }].  The loop is the same
    text in both implementations; every [continue] is a [ret] of the state
    reached so far. *)
Definition receiveBlock (useCRC : bool) (s : Receiver) : Chan Receiver :=
  if headerByte s =? SOH then
    '(r1, blockNumber) <- readByteWithTimeout 0 ;;
    if r1 <=? 0 then announceMode useCRC ;; ret s else
    '(r2, blockNumberComplement) <- readByteWithTimeout 0 ;;
    if r2 <=? 0 then announceMode useCRC ;; ret s else
    if negb (blockNumber + blockNumberComplement =? 255)
    then announceMode useCRC ;; ret s else
    '(dataResult, dataBlock) <- readWithTimeout BLOCK_SIZE ;;
    if negb (dataResult =? Z.of_nat BLOCK_SIZE)
    then announceMode useCRC ;; ret s else
    trailer <- readTrailer useCRC dataBlock ;;
    match trailer with
    | None => writeByte NAK ;; ret s
    | Some checksumValid =>
        if negb checksumValid then writeByte NAK ;; ret s
        else if (blockNumber =? expectedBlock s - 1) && (expectedBlock s >? 1)
        then writeByte ACK ;; readNextHeader s
        else if blockNumber =? expectedBlock s
        then writeByte ACK ;; readNextHeader (accept_block s dataBlock)
        else writeByte NAK ;; ret s
    end
  else if headerByte s =? EOT then
    writeByte ACK ;; ret (stop_receiving s)
  else
    writeByte NAK ;;
    '(_, hb) <- readByteWithTimeout (headerByte s) ;;
    ret (set_headerByte s hb).

(** At most [n] iterations of the block-reception loop. *)
Fixpoint receiveLoop (n : nat) (useCRC : bool) (s : Receiver)
  : Chan Receiver :=
  match n with
  | O => ret s
  | S n' =>
      if receiving s
      then s' <- receiveBlock useCRC s ;; receiveLoop n' useCRC s'
      else ret s
  end.

Inductive Start : Type :=
| StartSOH                        (* proceed to block reception *)
| StartEOT                        (* empty file, acknowledged *)
| StartFailed.

(** [for (int i = 0; i < 6; ++i) { ... }] of the procedural receiver, by
    recursion on the number [6 - i] of iterations left. *)
Fixpoint awaitStart (left : nat) (useCRC : bool) : Chan Start :=
  match left with
  | O => ret StartFailed
  | S left' =>
      writeByte (if useCRC then C else NAK) ;;
      '(r, hb) <- readByteWithTimeout 0 ;;
      if r >? 0 then
        if hb =? SOH then ret StartSOH
        else if hb =? EOT then writeByte ACK ;; ret StartEOT
        else awaitStart left' useCRC
      else awaitStart left' useCRC
  end.

Definition initialReceiver (f : ofstream) : Receiver :=
  {| file := f; expectedBlock := 1; headerByte := SOH; receiving := true |}.

(** The block-reception loop followed by [file.close(); return true;]. *)
Definition receiveBlocks (fuel : nat) (useCRC : bool) (f : ofstream)
  : Chan (Outcome * ofstream) :=
  s <- receiveLoop fuel useCRC (initialReceiver f) ;;
  ret (if receiving s then Running else Returned true, file s).

(** [receiveFile] of the procedural implementation.  [openable] tells
    whether [path] can be opened for writing; the stream is never tested. *)
Definition receiveFile (fuel : nat) (useCRC : bool) (openable : bool)
  : Chan (Outcome * ofstream) :=
  let f := ofstream_open openable in
  st <- awaitStart 6 useCRC ;;
  match st with
  | StartEOT => ret (Returned true, f)
  | StartFailed => ret (Returned false, f)
  | StartSOH => receiveBlocks fuel useCRC f
  end.

(** ** SenderEngine *)

(** The frame built at the top of every attempt.  [buffer] always holds
    [BLOCK_SIZE] bytes, so [std::copy] fills positions 3 to 130 and the
    trailer follows.  Every element is stored into a [uint8_t]. *)
Definition packet (useCRC : bool) (blockNumber : Z) (buffer : list Z)
  : list Z :=
  if useCRC then
    let crc := calculateCRC16 buffer in
    [SOH; blockNumber; u8 (255 - blockNumber)] ++ buffer
      ++ [u8 (Z.land (Z.shiftr crc 8) 0xFF); u8 (Z.land crc 0xFF)]
  else
    [SOH; blockNumber; u8 (255 - blockNumber)] ++ buffer
      ++ [calculateChecksum buffer].

Inductive Initiation : Type :=
| Initiated (useCRC : bool)
| NotInitiated                    (* retries reached MAX_RETRIES *)
| InitiationPending.              (* the bound on iterations ran out *)

(** [while (waitingForInitiation && retries < MAX_RETRIES)]: a byte other
    than NAK and C does not count as a retry, so the loop has no bound of
    its own. *)
Fixpoint awaitInitiation (fuel : nat) (retries : nat) : Chan Initiation :=
  if (retries <? MAX_RETRIES)%nat then
    match fuel with
    | O => ret InitiationPending
    | S fuel' =>
        '(r, response) <- readByteWithTimeout 0 ;;
        if r >? 0 then
          if response =? NAK then ret (Initiated false)
          else if response =? C then ret (Initiated true)
          else awaitInitiation fuel' retries
        else awaitInitiation fuel' (S retries)
    end
  else ret NotInitiated.

Inductive BlockResult : Type :=
| BlockAcked
| BlockCancelled                  (* CAN: return false at once *)
| BlockNotAcked.                  (* retries reached MAX_RETRIES *)

(** [while (!blockAcked && retries < MAX_RETRIES)], by recursion on the
    number [MAX_RETRIES - retries] of attempts left: [retries] grows by one
    in every iteration. *)
Fixpoint sendBlock (left : nat) (useCRC : bool) (blockNumber : Z)
    (buffer : list Z) : Chan BlockResult :=
  match left with
  | O => ret BlockNotAcked
  | S left' =>
      writeAll (packet useCRC blockNumber buffer) ;;
      '(r, response) <- readByteWithTimeout 0 ;;
      if r >? 0 then
        if response =? ACK then ret BlockAcked
        else if response =? NAK then sendBlock left' useCRC blockNumber buffer
        else if response =? CAN then ret BlockCancelled
        else sendBlock left' useCRC blockNumber buffer
      else sendBlock left' useCRC blockNumber buffer
  end.

(** [while (!eotAcked && retries < MAX_RETRIES)], same recursion. *)
Fixpoint sendEOT (left : nat) : Chan bool :=
  match left with
  | O => ret false
  | S left' =>
      writeByte EOT ;;
      '(r, response) <- readByteWithTimeout 0 ;;
      if r >? 0 then
        if response =? ACK then ret true else sendEOT left'
      else sendEOT left'
  end.

(** [while (true)] over the chunks of the input file; [src] is what is
    left of the file at the read position. *)
Fixpoint sendBlocks (fuel : nat) (useCRC : bool) (src : list Z)
    (blockNumber : Z) : Chan Outcome :=
  match fuel with
  | O => ret Running
  | S fuel' =>
      let chunk := firstn BLOCK_SIZE src in
      let bytesRead := length chunk in
      if (bytesRead =? 0)%nat then
        eotAcked <- sendEOT MAX_RETRIES ;;
        ret (Returned eotAcked)
      else
        let buffer := chunk ++ repeat 0x1A (BLOCK_SIZE - bytesRead) in
        res <- sendBlock MAX_RETRIES useCRC blockNumber buffer ;;
        match res with
        | BlockAcked =>
            sendBlocks fuel' useCRC (skipn BLOCK_SIZE src) (u8 (blockNumber + 1))
        | BlockCancelled => ret (Returned false)
        | BlockNotAcked => ret (Returned false)
        end
  end.

(** [sendFile], the same text in both implementations.  [input] is the
    content of the file at [path], [None] when it cannot be opened. *)
Definition sendFile (fuel : nat) (input : option (list Z)) : Chan Outcome :=
  match input with
  | None => ret (Returned false)
  | Some src =>
      i <- awaitInitiation fuel 0 ;;
      match i with
      | InitiationPending => ret Running
      | NotInitiated => ret (Returned false)
      | Initiated useCRC => sendBlocks fuel useCRC src 1
      end
  end.

(** ** The class [XModem] of zad2/src/x.cpp

    Its checksum functions, port primitives, sender and block-reception
    loop coincide with the definitions above; the start of [receiveFile]
    differs. *)
Module XModem.

(** [duration_cast<seconds>(currentTime - startTime).count() >= 60] *)
Definition minute_elapsed (startTime currentTime : Z) : bool :=
  Z.quot (currentTime - startTime) 1000000000 >=? 60.

(** [while (retries < 6) { ... retries++; ... }] by recursion on the number
  [6 - retries] of attempts left. *)
Fixpoint awaitStart (left : nat) (useCRC : bool) (startTime : Z)
  : Chan Start :=
  match left with
  | O => ret StartFailed
  | S left' =>
      announceMode useCRC ;;
      '(r, hb) <- readByteWithTimeout 0 ;;
      let again :=
        currentTime <- steady_now ;;
        if minute_elapsed startTime currentTime then ret StartFailed
        else awaitStart left' useCRC startTime in
      if r >? 0 then
        if hb =? SOH then ret StartSOH
        else if hb =? EOT then writeByte ACK ;; ret StartEOT
        else again
      else again
  end.

Definition receiveFile (fuel : nat) (useCRC : bool) (openable : bool)
  : Chan (Outcome * ofstream) :=
  let f := ofstream_open openable in
  if fail f then ret (Returned false, f) else
  startTime <- steady_now ;;
  st <- awaitStart 6 useCRC startTime ;;
  match st with
  | StartEOT => ret (Returned true, f)
  | StartFailed => ret (Returned false, f)
  | StartSOH => receiveBlocks fuel useCRC f
  end.

End XModem.

(** ** Executions used as test vectors *)

Definition hears (answers : list ReadOutcome) : World :=
  {| rx := answers; tx := []; clock := [] |}.

(** The reads a receiver performs on a frame, after its SOH. *)
Definition frame_reads (useCRC : bool) (blockNumber : Z) (buffer : list Z)
  : list ReadOutcome :=
  [ReadOk [blockNumber]; ReadOk [u8 (255 - blockNumber)]; ReadOk buffer]
  ++ (if useCRC
      then [ReadOk [u8 (Z.land (Z.shiftr (calculateCRC16 buffer) 8) 0xFF)];
            ReadOk [u8 (Z.land (calculateCRC16 buffer) 0xFF)]]
      else [ReadOk [calculateChecksum buffer]]).

Definition block_a : list Z := map Z.of_nat (seq 0 128).
Definition block_ff : list Z := repeat 0xFF 128.

(** The padded block number [k] (from 0) of an input file, as [sendFile]
    lays it out in [buffer]. *)
Definition file_block (src : list Z) (k : nat) : list Z :=
  let chunk := firstn BLOCK_SIZE (skipn (k * BLOCK_SIZE) src) in
  chunk ++ repeat 0x1A (BLOCK_SIZE - length chunk).

(** The first byte a read hands to [readByteWithTimeout], if any. *)
Definition first_byte (o : ReadOutcome) : option Z :=
  match o with
  | ReadOk (b :: _) => Some b
  | _ => None
  end.

(** An answer that the start phase of the receiver counts as one more
    attempt: no byte, or a byte other than SOH and EOT. *)
Definition no_start (o : ReadOutcome) : bool :=
  match first_byte o with
  | Some b => negb (b =? SOH) && negb (b =? EOT)
  | None => true
  end.

Definition not_EOT (o : ReadOutcome) : bool :=
  match first_byte o with
  | Some b => negb (b =? EOT)
  | None => true
  end.

(** The sum of the bytes of a payload, without truncation. *)
Definition byte_sum (data : list Z) : Z := fold_right Z.add 0 data.

(** The byte that announces the mode and asks for retransmission. *)
Definition mode_byte (useCRC : bool) : Z := if useCRC then C else NAK.

(** The sink holds a whole number of blocks. *)
Definition whole_blocks (f : ofstream) : Prop :=
  exists k : nat, length (contents f) = (k * BLOCK_SIZE)%nat.

(** ** The two receivers side by side *)

Inductive Implementation : Type :=
| Procedural                      (* the free-function implementation *)
| Class.                          (* class XModem of zad2/src/x.cpp *)

Definition receiveFileOf (impl : Implementation) (fuel : nat)
    (useCRC openable : bool) : Chan (Outcome * ofstream) :=
  match impl with
  | Procedural => receiveFile fuel useCRC openable
  | Class => XModem.receiveFile fuel useCRC openable
  end.

(** What [receiveFile] does before the block-reception loop: in the class
    the test of the stream, the first clock reading and the announcing
    loop; in the procedural receiver the announcing loop alone. *)
Definition startPhase (impl : Implementation) (useCRC : bool)
    (f : ofstream) : Chan Start :=
  match impl with
  | Procedural => awaitStart 6 useCRC
  | Class =>
      if fail f then ret StartFailed else
      startTime <- steady_now ;;
      XModem.awaitStart 6 useCRC startTime
  end.

(** ** A clean channel between the two engines *)

(** The number of 128-byte blocks [sendFile] cuts a file into. *)
Definition blocks_of (src : list Z) : nat :=
  ((length src + (BLOCK_SIZE - 1)) / BLOCK_SIZE)%nat.

(** The number carried by block [k] (from 0): [blockNumber] starts at 1
    and is incremented as an 8-bit counter. *)
Definition block_number (k : nat) : Z := u8 (1 + Z.of_nat k).

(** The frames of a whole file, in order. *)
Definition sender_frames (useCRC : bool) (src : list Z) : list (list Z) :=
  map (fun k => packet useCRC (block_number k) (file_block src k))
      (seq 0 (blocks_of src)).

(** How the reads of the receiver cut one write of the sender when every
    byte arrives in time: a single byte (EOT) is one read; a frame is read
    as header, block number, complement, payload and trailer bytes. *)
Definition reads_of_write (p : list Z) : list ReadOutcome :=
  match p with
  | [b] => [ReadOk [b]]
  | _ =>
      ReadOk [nth 0 p 0] :: ReadOk [nth 1 p 0] :: ReadOk [nth 2 p 0]
      :: ReadOk (firstn BLOCK_SIZE (skipn 3 p))
      :: map (fun b => ReadOk [b]) (skipn (3 + BLOCK_SIZE) p)
  end.

(** How the reads of the sender see the single bytes the receiver
    writes. *)
Definition answers_of (writes : list (list Z)) : list ReadOutcome :=
  map ReadOk writes.

(** A read that brought no byte: a failure or a timeout. *)
Definition no_byte (o : ReadOutcome) : bool :=
  match first_byte o with
  | Some _ => false
  | None => true
  end.

(** An answer the waiting sender skips or counts: anything but NAK and
    C. *)
Definition not_mode (o : ReadOutcome) : bool :=
  match first_byte o with
  | Some b => negb (b =? NAK) && negb (b =? C)
  | None => true
  end.

(** An answer to a frame that makes the sender try again: anything but ACK
    and CAN. *)
Definition retry_answer (o : ReadOutcome) : bool :=
  match first_byte o with
  | Some b => negb (b =? ACK) && negb (b =? CAN)
  | None => true
  end.

Definition not_ACK (o : ReadOutcome) : bool :=
  match first_byte o with
  | Some b => negb (b =? ACK)
  | None => true
  end.

(** The trailer bytes of a frame, as the sender stores them. *)
Definition trailer_of (useCRC : bool) (buffer : list Z) : list Z :=
  if useCRC
  then [u8 (Z.land (Z.shiftr (calculateCRC16 buffer) 8) 0xFF);
        u8 (Z.land (calculateCRC16 buffer) 0xFF)]
  else [calculateChecksum buffer].

(** The first [k] frames of a file when the first block carries [bn]. *)
Definition frames_from (useCRC : bool) (src : list Z) (bn : Z) (k : nat)
  : list (list Z) :=
  map (fun i => packet useCRC (u8 (bn + Z.of_nat i)) (file_block src i))
      (seq 0 k).

(** What the receiver reads on a clean channel from the header of block
    [k] on, when [m] blocks and the EOT are still to come. *)
Definition clean_stream (useCRC : bool) (src : list Z) (k m : nat)
  : list ReadOutcome :=
  concat (map reads_of_write
            (map (fun i => packet useCRC (block_number i) (file_block src i))
                 (seq k m) ++ [[EOT]])).

(** The expected block number agrees with the number of blocks in an
    opened sink. *)
Definition counts_blocks (s : Receiver) : Prop :=
  fail (file s) = false
  /\ expectedBlock s
     = u8 (1 + Z.of_nat (length (contents (file s)) / BLOCK_SIZE)).

(** ** The command line of the procedural implementation *)

Module Args.
Import String.
Local Open Scope string_scope.
Definition R : string := "R".
Definition S : string := "S".
Definition crc_off : string := "0".
Definition crc_on : string := "1".
End Args.

(** The four lines [main] can print. *)
Inductive Message : Type :=
| ReceivedOk                      (* "Poprawnie odebrano plik!" *)
| ReceivedBad                     (* "Niepoprawnie odebrano plik!" *)
| SentOk                          (* "Poprawnie wyslano plik!" *)
| SentBad.                        (* "Niepoprawnie wyslano plik!" *)

(** The files [main] can reach: the content behind a path opened for
    reading, if it can be opened, and whether a path can be opened for
    writing. *)
Record FileSystem : Type := mkFileSystem {
  readable : String.string -> option (list Z);
  writable : String.string -> bool
}.

Inductive Exit : Type :=
| Exited (status : Z) (printed : list Message)
| NotExited.                      (* the bound ran out inside an engine *)

(** [main].  [argv] holds the arguments after the program name, so [argc]
    is its length plus one.  [configPorts] opens and configures the port
    and exchanges no byte; the process-wide [useCRC] starts as false. *)
Definition main (fuel : nat) (fs : FileSystem) (argv : list String.string)
  : Chan Exit :=
  let argc := S (length argv) in
  if (argc <? 3)%nat || (4 <? argc)%nat then ret (Exited (-1) []) else
  let flag := nth 2 argv String.EmptyString in
  let useCRC :=
    if (argc =? 4)%nat then
      if String.eqb flag Args.crc_off then false
      else if String.eqb flag Args.crc_on then true
      else false
    else false in
  let role := nth 0 argv String.EmptyString in
  let path := nth 1 argv String.EmptyString in
  if String.eqb role Args.R then
    '(result, _) <- receiveFile fuel useCRC (writable fs path) ;;
    match result with
    | Returned true => ret (Exited 0 [ReceivedOk])
    | Returned false => ret (Exited 0 [ReceivedBad])
    | Running => ret NotExited
    end
  else if String.eqb role Args.S then
    result <- sendFile fuel (readable fs path) ;;
    match result with
    | Returned true => ret (Exited 0 [SentOk])
    | Returned false => ret (Exited 0 [SentBad])
    | Running => ret NotExited
    end
  else ret (Exited 0 []).

(** ** The reads of one frame, and what can go wrong with them *)

(** The recoverable conditions a receiver that holds an SOH header can run
    into before it accepts or re-acknowledges a block. *)
Inductive Condition : Type :=
| NumberReadFailed                (* no block number *)
| ComplementReadFailed            (* no complement *)
| ComplementMismatch              (* blockNumber + complement != 255 *)
| ShortPayload                    (* fewer than 128 bytes, or a failure *)
| TrailerReadFailed               (* a trailer byte is missing *)
| CheckMismatch                   (* checksum or CRC differs *)
| OutOfSequence.                  (* neither expected nor its predecessor *)

Inductive FrameRead : Type :=
| FrameFailed (c : Condition)
| FrameValid (blockNumber : Z) (dataBlock : list Z).

(** The reads and tests at the head of the SOH branch of the loop, up to
    the test of the check value: the part of an iteration that does not
    depend on [expectedBlock]. *)
Definition readFrame (useCRC : bool) : Chan FrameRead :=
  '(r1, blockNumber) <- readByteWithTimeout 0 ;;
  if r1 <=? 0 then ret (FrameFailed NumberReadFailed) else
  '(r2, blockNumberComplement) <- readByteWithTimeout 0 ;;
  if r2 <=? 0 then ret (FrameFailed ComplementReadFailed) else
  if negb (blockNumber + blockNumberComplement =? 255)
  then ret (FrameFailed ComplementMismatch) else
  '(dataResult, dataBlock) <- readWithTimeout BLOCK_SIZE ;;
  if negb (dataResult =? Z.of_nat BLOCK_SIZE)
  then ret (FrameFailed ShortPayload) else
  trailer <- readTrailer useCRC dataBlock ;;
  match trailer with
  | None => ret (FrameFailed TrailerReadFailed)
  | Some checksumValid =>
      if negb checksumValid then ret (FrameFailed CheckMismatch)
      else ret (FrameValid blockNumber dataBlock)
  end.

(** The byte the receiver writes on each condition. *)
Definition request (useCRC : bool) (c : Condition) : Z :=
  match c with
  | NumberReadFailed | ComplementReadFailed | ComplementMismatch
  | ShortPayload => mode_byte useCRC
  | TrailerReadFailed | CheckMismatch | OutOfSequence => NAK
  end.

(** The condition, if any, that the next reads bring to a receiver that
    holds an SOH header and expects block [expected]. *)
Definition midBlockCondition (useCRC : bool) (expected : Z)
  : Chan (option Condition) :=
  fr <- readFrame useCRC ;;
  match fr with
  | FrameFailed c => ret (Some c)
  | FrameValid blockNumber _ =>
      if ((blockNumber =? expected - 1) && (expected >? 1))
         || (blockNumber =? expected)
      then ret None
      else ret (Some OutOfSequence)
  end.

(** The channel produces such a condition [n] times in a row, each
    followed by the receiver's request. *)
Fixpoint persistently (n : nat) (useCRC : bool) (expected : Z) (w : World)
  : bool :=
  match n with
  | O => true
  | S n' =>
      match midBlockCondition useCRC expected w with
      | (Some c, w') =>
          persistently n' useCRC expected
            (snd (writeByte (request useCRC c) w'))
      | (None, _) => false
      end
  end.

(** The answers to the next reads are those of one fully valid frame body:
    a block number, its complement, a full payload and a trailer that
    matches the check value of that payload. *)
Definition trailer_reads_match (useCRC : bool) (payload : list Z)
    (trailer : list ReadOutcome) : Prop :=
  if useCRC
  then exists hi m3 lo m4,
         trailer = [ReadOk (hi :: m3); ReadOk (lo :: m4)]
         /\ u16 (Z.lor (Z.shiftl (u16 hi) 8) lo) = calculateCRC16 payload
  else exists x m3,
         trailer = [ReadOk (x :: m3)] /\ x = calculateChecksum payload.

Definition valid_frame_reads (useCRC : bool) (answers : list ReadOutcome)
    (blockNumber : Z) (payload : list Z) (rest : list ReadOutcome) : Prop :=
  exists m1 complement m2 bytes trailer,
    answers = ReadOk (blockNumber :: m1) :: ReadOk (complement :: m2)
              :: ReadOk bytes :: trailer ++ rest
    /\ blockNumber + complement = 255
    /\ payload = firstn BLOCK_SIZE bytes
    /\ length payload = 128%nat
    /\ trailer_reads_match useCRC payload trailer.

(** [payload] was validated on [answers]: somewhere in the stream of read
    outcomes stands a valid frame that carries it. *)
Definition validated_in (useCRC : bool) (answers : list ReadOutcome)
    (payload : list Z) : Prop :=
  exists before after blockNumber rest,
    answers = before ++ after
    /\ valid_frame_reads useCRC after blockNumber payload rest.

(** The conditions met in up to [n] iterations in a row, in order. *)
Fixpoint conditions (n : nat) (useCRC : bool) (expected : Z) (w : World)
  : list Condition :=
  match n with
  | O => []
  | S n' =>
      match midBlockCondition useCRC expected w with
      | (Some c, w') =>
          c :: conditions n' useCRC expected
                 (snd (writeByte (request useCRC c) w'))
      | (None, _) => []
      end
  end.

(** A payload made of the byte that, as a header, ends the transmission. *)
Definition block_eot : list Z := repeat EOT 128.

(** A channel that, after SOH and one good block, produces each of the
    seven conditions once, on frames numbered 4 whose payloads are made of
    byte 0x04, and then goes silent. *)
Definition troubled_answers : list ReadOutcome :=
  [ReadOk [SOH]] ++ frame_reads true 1 block_a ++ [ReadOk [SOH]]
  ++ [ReadOk [4]; ReadOk [251]; ReadOk [4; 4; 4]]
  ++ [ReadOk [4]; ReadOk [4]]
  ++ frame_reads true 4 block_eot
  ++ [ReadOk [4]; ReadOk [251]; ReadOk block_eot; ReadOk [4]; ReadOk [4]]
  ++ [ReadOk [4]; ReadFailed]
  ++ [ReadFailed]
  ++ [ReadOk [4]; ReadOk [251]; ReadOk block_eot; ReadOk []].

(** * Properties *)

(** ** ChecksumEngine *)

Lemma calculateChecksum_from (data : list Z) (acc : Z) :
  fold_left (fun sum byte => u8 (sum + byte)) data (u8 acc)
  = u8 (acc + byte_sum data).
Proof.
  revert acc; induction data as [|b data IH]; intros acc; simpl.
  - now rewrite Z.add_0_r.
  - rewrite IH. unfold u8.
    rewrite <- Z.add_assoc, Zplus_mod_idemp_l. reflexivity.
Qed.

Lemma calculateChecksum_sum (data : list Z) :
  calculateChecksum data = byte_sum data mod 256.
Proof.
  unfold calculateChecksum.
  change 0 with (u8 0) at 1.
  now rewrite calculateChecksum_from.
Qed.

(** C2, as the specification states it, fails: 128 bytes 0xFF sum to
    32640, which is 0x80 modulo 256, not 0. *)
Lemma calculateChecksum_all_ff_nonzero :
  calculateChecksum (repeat 0xFF 128) <> 0.
Proof. vm_compute. discriminate. Qed.

(** C2 (amended): for every payload, in particular every 128-byte one,
    [calculateChecksum] is the sum of all bytes truncated to 8 bits; it is a
    function of the payload alone; the vector of 128 bytes 0x00 gives 0 and
    the vector of 128 bytes 0xFF gives 0x80. *)
Theorem calculateChecksum_correct :
  (forall data, calculateChecksum data = byte_sum data mod 256)
  /\ (forall data, is_u8 (calculateChecksum data))
  /\ calculateChecksum (repeat 0x00 BLOCK_SIZE) = 0
  /\ calculateChecksum (repeat 0xFF BLOCK_SIZE) = 0x80.
Proof.
  split; [exact calculateChecksum_sum|].
  split; [|split; reflexivity].
  intros data. rewrite calculateChecksum_sum.
  unfold is_u8. apply Z.mod_pos_bound. lia.
Qed.

(** *** CRC16: the table-driven loop against the bit-at-a-time division *)

Lemma byte_cases (P : Z -> bool) :
  forallb P (map Z.of_nat (seq 0 256)) = true ->
  forall z, is_u8 z -> P z = true.
Proof.
  intros H z Hz. rewrite forallb_forall in H. apply H.
  apply in_map_iff. exists (Z.to_nat z). unfold is_u8 in Hz.
  split; [lia | apply in_seq; lia].
Qed.

Lemma u16_bits (z i : Z) :
  Z.testbit (u16 z) i = (i <? 16) && Z.testbit z i.
Proof.
  unfold u16. change 65536 with (2 ^ 16). apply Z.testbit_mod_pow2. lia.
Qed.

Lemma bits_bound (z p : Z) :
  0 <= p ->
  (forall i, p <= i -> Z.testbit z i = false) ->
  0 <= z < 2 ^ p.
Proof.
  intros Hp Hhigh.
  assert (E : z = z mod 2 ^ p).
  { apply Z.bits_inj'. intros i Hi. rewrite Z.testbit_mod_pow2 by lia.
    destruct (Z.ltb_spec i p); simpl; [reflexivity | now apply Hhigh]. }
  rewrite E. apply Z.mod_pos_bound. lia.
Qed.

Lemma bits_above (z p i : Z) :
  0 <= z < 2 ^ p -> 0 <= p -> p <= i -> Z.testbit z i = false.
Proof.
  intros Hz Hp Hi. rewrite <- (Z.mod_small z (2 ^ p)) by assumption.
  apply Z.mod_pow2_bits_high. lia.
Qed.

Lemma u16_small (z : Z) : is_u16 z -> u16 z = z.
Proof. intros H. apply Z.mod_small. exact H. Qed.

Lemma u16_range (z : Z) : is_u16 (u16 z).
Proof. apply Z.mod_pos_bound. lia. Qed.

Lemma u16_lxor (a b : Z) : u16 (Z.lxor a b) = Z.lxor (u16 a) (u16 b).
Proof.
  apply Z.bits_inj'. intros i _.
  rewrite Z.lxor_spec, !u16_bits, Z.lxor_spec.
  destruct (i <? 16); reflexivity.
Qed.

Lemma ccitt_shift_poly (r : Z) :
  ccitt_shift r
  = Z.lxor (u16 (Z.shiftl r 1)) (if Z.testbit r 15 then 0x1021 else 0).
Proof.
  unfold ccitt_shift. destruct (Z.testbit r 15);
    [reflexivity | now rewrite Z.lxor_0_r].
Qed.

(** Polynomial division is linear over GF(2). *)
Lemma ccitt_shift_lxor (x y : Z) :
  ccitt_shift (Z.lxor x y) = Z.lxor (ccitt_shift x) (ccitt_shift y).
Proof.
  rewrite !ccitt_shift_poly, Z.shiftl_lxor, u16_lxor, Z.lxor_spec.
  generalize (u16 (Z.shiftl x 1)) (u16 (Z.shiftl y 1)). intros a b.
  generalize 0x1021. intros poly.
  destruct (Z.testbit x 15), (Z.testbit y 15); cbn [xorb];
    apply Z.bits_inj'; intros i _; rewrite !Z.lxor_spec, ?Z.bits_0;
    destruct (Z.testbit a i), (Z.testbit b i), (Z.testbit poly i);
    reflexivity.
Qed.

Lemma ccitt_shift8_lxor (x y : Z) :
  ccitt_shift8 (Z.lxor x y) = Z.lxor (ccitt_shift8 x) (ccitt_shift8 y).
Proof. unfold ccitt_shift8. now rewrite !ccitt_shift_lxor. Qed.

Lemma ccitt_shift8_low (l : Z) :
  is_u8 l -> ccitt_shift8 l = Z.shiftl l 8.
Proof.
  intros H. apply Z.eqb_eq.
  apply (byte_cases (fun l => ccitt_shift8 l =? Z.shiftl l 8));
    [vm_compute; reflexivity | exact H].
Qed.

Lemma crc16tab_entry (h : Z) :
  is_u8 h -> nth (Z.to_nat h) crc16tab 0 = ccitt_shift8 (Z.shiftl h 8).
Proof.
  intros H. apply Z.eqb_eq.
  apply (byte_cases
           (fun h => nth (Z.to_nat h) crc16tab 0 =? ccitt_shift8 (Z.shiftl h 8)));
    [vm_compute; reflexivity | exact H].
Qed.

Lemma crc16tab_entry_range (h : Z) :
  is_u8 h -> is_u16 (nth (Z.to_nat h) crc16tab 0).
Proof.
  intros H.
  assert (E : ((0 <=? nth (Z.to_nat h) crc16tab 0)
               && (nth (Z.to_nat h) crc16tab 0 <? 65536)) = true).
  { apply (byte_cases
             (fun h => (0 <=? nth (Z.to_nat h) crc16tab 0)
                       && (nth (Z.to_nat h) crc16tab 0 <? 65536)));
      [vm_compute; reflexivity | exact H]. }
  apply andb_true_iff in E. unfold is_u16. lia.
Qed.

Lemma crc16tab_canonical : crc16tab = ccitt_table.
Proof. vm_compute. reflexivity. Qed.

(** The table index [(crc >> 8) ^ byte] is a byte. *)
Lemma crc_index_range (crc byte : Z) :
  is_u16 crc -> is_u8 byte -> is_u8 (Z.lxor (Z.shiftr crc 8) byte).
Proof.
  intros Hc Hb. apply (bits_bound _ 8); [lia|].
  intros i Hi. rewrite Z.lxor_spec, Z.shiftr_spec by lia.
  rewrite (bits_above crc 16 (i + 8)), (bits_above byte 8 i);
    [reflexivity | exact Hb | lia | lia | exact Hc | lia | lia].
Qed.

Lemma land_255_small (h : Z) : is_u8 h -> Z.land h 0xFF = h.
Proof.
  intros H. change 0xFF with (Z.ones 8).
  rewrite Z.land_ones by lia. apply Z.mod_small. exact H.
Qed.

Lemma land_255_range (z : Z) : is_u8 (Z.land z 0xFF).
Proof.
  change 0xFF with (Z.ones 8). rewrite Z.land_ones by lia.
  apply Z.mod_pos_bound. lia.
Qed.

(** Splitting the register after the byte was xored into its high half. *)
Lemma crc_register_split (crc byte : Z) :
  Z.lxor crc (Z.shiftl byte 8)
  = Z.lxor (Z.shiftl (Z.lxor (Z.shiftr crc 8) byte) 8) (Z.land crc 0xFF).
Proof.
  apply Z.bits_inj'. intros i Hi.
  rewrite !Z.lxor_spec, Z.land_spec, !Z.shiftl_spec by lia.
  change 0xFF with (Z.ones 8). rewrite Z.testbit_ones_nonneg by lia.
  destruct (Z.ltb_spec i 8).
  - rewrite !(Z.testbit_neg_r _ (i - 8)) by lia.
    now rewrite andb_true_r, xorb_false_r.
  - rewrite Z.lxor_spec, Z.shiftr_spec by lia.
    replace (i - 8 + 8) with i by lia.
    now rewrite andb_false_r, xorb_false_r.
Qed.

Lemma u16_shiftl_8 (crc : Z) :
  u16 (Z.shiftl crc 8) = Z.shiftl (Z.land crc 0xFF) 8.
Proof.
  apply Z.bits_inj'. intros i Hi.
  rewrite u16_bits, !Z.shiftl_spec by lia.
  destruct (Z.ltb_spec i 8).
  - rewrite !(Z.testbit_neg_r _ (i - 8)) by lia. now rewrite andb_false_r.
  - rewrite Z.land_spec. change 0xFF with (Z.ones 8).
    rewrite Z.testbit_ones_nonneg by lia.
    destruct (Z.ltb_spec i 16), (Z.ltb_spec (i - 8) 8); try lia;
      simpl; now rewrite ?andb_true_r, ?andb_false_r.
Qed.

Lemma crc16_step_ccitt (crc byte : Z) :
  is_u16 crc -> is_u8 byte -> crc16_step crc byte = ccitt_byte crc byte.
Proof.
  intros Hc Hb. unfold crc16_step, ccitt_byte.
  pose proof (crc_index_range crc byte Hc Hb) as Hh.
  rewrite (land_255_small _ Hh), u16_lxor.
  rewrite (u16_small _ (crc16tab_entry_range _ Hh)).
  rewrite (crc16tab_entry _ Hh), u16_shiftl_8.
  rewrite crc_register_split, ccitt_shift8_lxor.
  rewrite (ccitt_shift8_low _ (land_255_range crc)).
  apply Z.lxor_comm.
Qed.

Lemma calculateCRC16_from (data : list Z) (acc : Z) :
  is_u16 acc -> Forall is_u8 data ->
  fold_left crc16_step data acc = fold_left ccitt_byte data acc.
Proof.
  intros Hacc Hdata. revert acc Hacc.
  induction Hdata as [|b data Hb _ IH]; intros acc Hacc; simpl.
  - reflexivity.
  - rewrite <- (crc16_step_ccitt acc b Hacc Hb).
    apply IH. apply u16_range.
Qed.

(** The check value of CRC-16/XMODEM: the ASCII digits 1 to 9 give
    0x31C3. *)
Example calculateCRC16_check_value :
  calculateCRC16 [49; 50; 51; 52; 53; 54; 55; 56; 57] = 0x31C3.
Proof. reflexivity. Qed.

(** C3: on every payload of bytes (so on every 128-byte one)
    [calculateCRC16] is the CRC16-CCITT of the payload: initial value 0,
    polynomial 0x1021; it runs the table-driven step
    [crc = (crc << 8) ^ table[((crc >> 8) ^ byte) & 0xFF]] truncated to 16
    bits, and its table equals, entry for entry, the table generated from
    the polynomial. *)
Theorem calculateCRC16_ccitt (data : list Z) :
  Forall is_u8 data ->
  crc16tab = ccitt_table
  /\ calculateCRC16 data
     = fold_left (fun crc byte =>
         u16 (Z.lxor (Z.shiftl crc 8)
                (nth (Z.to_nat (Z.land (Z.lxor (Z.shiftr crc 8) byte) 0xFF))
                   ccitt_table 0))) data 0
  /\ calculateCRC16 data = crc16_ccitt data.
Proof.
  intros Hdata. split; [exact crc16tab_canonical|]. split.
  - rewrite <- crc16tab_canonical. reflexivity.
  - apply calculateCRC16_from; [unfold is_u16; lia | exact Hdata].
Qed.

Lemma calculateCRC16_ccitt_witness :
  Forall is_u8 block_a /\ calculateCRC16 block_a = crc16_ccitt block_a.
Proof.
  assert (H : Forall is_u8 block_a).
  { apply Forall_forall. intros x Hx. apply in_map_iff in Hx.
    destruct Hx as (n & <- & Hn). apply in_seq in Hn. unfold is_u8. lia. }
  split; [exact H | apply (calculateCRC16_ccitt block_a H)].
Defined.

(** ** Running the port primitives *)

Local Opaque BLOCK_SIZE.

Lemma bind_run {A B : Type} (m : Chan A) (k : A -> Chan B) w a w' :
  m w = (a, w') -> bind m k w = k a w'.
Proof. intros H. unfold bind. now rewrite H. Qed.

Lemma readByte_got old b more rest t c :
  readByteWithTimeout old (mkWorld (ReadOk (b :: more) :: rest) t c)
  = ((1, b), mkWorld rest t c).
Proof. reflexivity. Qed.

Lemma readByte_silent old t c :
  readByteWithTimeout old (mkWorld [] t c) = ((0, old), mkWorld [] t c).
Proof. reflexivity. Qed.

Lemma readBlock_full data rest t c :
  length data = BLOCK_SIZE ->
  readWithTimeout BLOCK_SIZE (mkWorld (ReadOk data :: rest) t c)
  = ((Z.of_nat BLOCK_SIZE, data), mkWorld rest t c).
Proof.
  intros H.
  assert (E : firstn BLOCK_SIZE data = data)
    by (rewrite <- H; apply firstn_all).
  unfold readWithTimeout, bind, ReadFile. cbn [rx tx clock negb].
  rewrite E, H, Nat.sub_diag. cbn [repeat]. now rewrite app_nil_r.
Qed.

Lemma writeByte_run b r t c :
  writeByte b (mkWorld r t c) = (tt, mkWorld r (t ++ [[b]]) c).
Proof. reflexivity. Qed.

Lemma announceMode_run useCRC r t c :
  announceMode useCRC (mkWorld r t c)
  = (tt, mkWorld r (t ++ [[if useCRC then C else NAK]]) c).
Proof. destruct useCRC; reflexivity. Qed.

(** What a read leaves behind, whatever the port answers. *)
Lemma ReadFile_run count w ok got w' :
  ReadFile count w = ((ok, got), w') ->
  tx w' = tx w /\ clock w' = clock w /\ rx w' = tl (rx w)
  /\ (length got <= count)%nat
  /\ (got = [] \/ exists bytes, hd_error (rx w) = Some (ReadOk bytes)
                                /\ got = firstn count bytes).
Proof.
  unfold ReadFile. destruct w as [r t c]; cbn [rx tx clock].
  destruct r as [|[|bytes] rest]; intros H; inversion H; subst;
    cbn [rx tx clock tl length hd_error];
    repeat split; try lia; auto.
  - apply firstn_le_length.
  - right. exists bytes. split; reflexivity.
Qed.

Lemma readWithTimeout_run count w result buffer w' :
  readWithTimeout count w = ((result, buffer), w') ->
  tx w' = tx w /\ clock w' = clock w /\ rx w' = tl (rx w)
  /\ length buffer = count.
Proof.
  unfold readWithTimeout, bind.
  destruct (ReadFile count w) as [[ok got] w1] eqn:E.
  apply ReadFile_run in E. destruct E as (Ht & Hc & Hr & Hlen & _).
  destruct ok; cbn [negb ret]; intros H; inversion H; subst;
    repeat split; auto; rewrite length_app, repeat_length; lia.
Qed.

Lemma readByteWithTimeout_run old w result byte w' :
  readByteWithTimeout old w = ((result, byte), w') ->
  tx w' = tx w /\ clock w' = clock w /\ rx w' = tl (rx w)
  /\ ((result <= 0 /\ byte = old)
      \/ (result = 1
          /\ exists o, hd_error (rx w) = Some o /\ first_byte o = Some byte)).
Proof.
  unfold readByteWithTimeout, readWithTimeout, bind.
  destruct (ReadFile 1 w) as [[ok got] w1] eqn:E.
  apply ReadFile_run in E. destruct E as (Ht & Hc & Hr & Hlen & Hgot).
  destruct ok; cbn [negb ret]; intros H; inversion H; subst; clear H;
    repeat split; auto.
  - destruct got as [|b [|b' got]]; cbn [length] in *; try lia.
    + left. split; [lia | reflexivity].
    + right. split; [reflexivity|].
      destruct Hgot as [Hgot | (bytes & Hhd & Hgot)]; [discriminate|].
      exists (ReadOk bytes). split; [exact Hhd|].
      destruct bytes as [|x bytes]; [discriminate|].
      cbn in Hgot. inversion Hgot. reflexivity.
  - left. split; [lia | reflexivity].
Qed.

Lemma writeByte_any b w :
  writeByte b w = (tt, mkWorld (rx w) (tx w ++ [[b]]) (clock w)).
Proof. reflexivity. Qed.

(** Reading the next header touches neither the sink nor the expected
    block number, and only adds to what was sent. *)
Lemma readNextHeader_run s w :
  let s' := fst (readNextHeader s w) in
  let w' := snd (readNextHeader s w) in
  file s' = file s /\ expectedBlock s' = expectedBlock s
  /\ exists more, tx w' = tx w ++ more.
Proof.
  unfold readNextHeader, bind.
  destruct (readByteWithTimeout (headerByte s) w) as [[r hb] w1] eqn:E.
  apply readByteWithTimeout_run in E. destruct E as (Ht & _).
  destruct (r <=? 0); [|destruct (hb =? EOT); [|destruct (negb (hb =? SOH))]];
    cbn; rewrite ?Ht; repeat split; eauto.
  exists []. now rewrite app_nil_r.
Qed.

(** ** Block-number complement *)

Lemma packet_complement useCRC b buffer :
  is_u8 b ->
  nth 1 (packet useCRC b buffer) 0 = b
  /\ nth 2 (packet useCRC b buffer) 0 = 255 - b.
Proof.
  intros Hb. unfold packet, u8, is_u8 in *.
  destruct useCRC; cbn [app nth]; (split; [reflexivity|]);
    apply Z.mod_small; lia.
Qed.

(** The attempts on a block write the frame built for it and nothing
    else. *)
Lemma sendBlock_writes left useCRC b buffer w :
  exists k, (k <= left)%nat
    /\ tx (snd (sendBlock left useCRC b buffer w))
       = tx w ++ repeat (packet useCRC b buffer) k.
Proof.
  revert w. induction left as [|left IH]; intros w.
  - exists 0%nat. cbn. now rewrite app_nil_r.
  - cbn [sendBlock]. unfold bind at 1. unfold writeAll at 1, WriteFile at 1.
    set (w1 := {| rx := rx w; tx := tx w ++ [packet useCRC b buffer];
                  clock := clock w |}).
    unfold bind at 1.
    destruct (readByteWithTimeout 0 w1) as [[r response] w2] eqn:E.
    apply readByteWithTimeout_run in E. destruct E as (Ht & _).
    assert (Hw2 : tx w2 = tx w ++ repeat (packet useCRC b buffer) 1)
      by (rewrite Ht; reflexivity).
    assert (Hagain : exists k, (k <= S left)%nat
              /\ tx (snd (sendBlock left useCRC b buffer w2))
                 = tx w ++ repeat (packet useCRC b buffer) k).
    { destruct (IH w2) as (k & Hk & Htx). exists (S k). split; [lia|].
      rewrite Htx, Hw2, <- app_assoc. reflexivity. }
    destruct (r >? 0); [|exact Hagain].
    destruct (response =? ACK); [exists 1%nat; split; [lia | exact Hw2]|].
    destruct (response =? NAK); [exact Hagain|].
    destruct (response =? CAN); [exists 1%nat; split; [lia | exact Hw2]|].
    exact Hagain.
Qed.

(** C4: for every block number [b] in 0..255 every frame the sender builds,
    in either mode, carries [b] followed by [255 - b], and the attempts on a
    block write nothing but that frame; a receiver that reads a block
    number and a complement with [blockNumber + complement <> 255] leaves
    the sink, the expected block number and the rest of its state as they
    were and asks again with the mode byte (C or NAK). *)
Theorem complement_invariant
    (useCRC : bool) (b : Z) (buffer : list Z)
    (s : Receiver) (bn comp : Z) (m1 m2 : list Z)
    (rest : list ReadOutcome) (t : list (list Z)) (c : list Z) :
  is_u8 b ->
  headerByte s = SOH ->
  bn + comp <> 255 ->
  (nth 1 (packet useCRC b buffer) 0 = b
   /\ nth 2 (packet useCRC b buffer) 0 = 255 - b)
  /\ (forall left w, exists k,
        tx (snd (sendBlock left useCRC b buffer w))
        = tx w ++ repeat (packet useCRC b buffer) k)
  /\ receiveBlock useCRC s
       (mkWorld (ReadOk (bn :: m1) :: ReadOk (comp :: m2) :: rest) t c)
     = (s, mkWorld rest (t ++ [[if useCRC then C else NAK]]) c).
Proof.
  intros Hb Hhdr Hsum. split; [now apply packet_complement|]. split.
  - intros left w. destruct (sendBlock_writes left useCRC b buffer w)
      as (k & _ & H). now exists k.
  - unfold receiveBlock. rewrite Hhdr. cbn [Z.eqb SOH Pos.eqb].
    rewrite (bind_run _ _ _ _ _ (readByte_got _ _ _ _ _ _)).
    cbn [Z.leb Z.compare].
    rewrite (bind_run _ _ _ _ _ (readByte_got _ _ _ _ _ _)).
    cbn [Z.leb Z.compare].
    destruct (Z.eqb_spec (bn + comp) 255) as [E|_]; [contradiction|].
    cbn [negb].
    rewrite (bind_run _ _ _ _ _ (announceMode_run _ _ _ _)).
    reflexivity.
Qed.

Lemma complement_invariant_witness :
  (is_u8 1 /\ 1 + 0xFF <> 255)
  /\ nth 2 (packet false 1 block_a) 0 = 254
  /\ receiveBlock false (initialReceiver (ofstream_open true))
       (mkWorld [ReadOk [1]; ReadOk [0xFF]; ReadOk block_a] [[NAK]] [])
     = (initialReceiver (ofstream_open true),
        mkWorld [ReadOk block_a] [[NAK]; [NAK]] []).
Proof.
  assert (H1 : is_u8 1) by (unfold is_u8; lia).
  assert (H2 : 1 + 0xFF <> 255) by lia.
  split; [split; assumption|].
  destruct (complement_invariant false 1 block_a
              (initialReceiver (ofstream_open true)) 1 0xFF [] []
              [ReadOk block_a] [[NAK]] [] H1 eq_refl H2)
    as ((_ & Hc) & _ & Hr).
  split; [exact Hc | exact Hr].
Defined.

(** ** Duplicate and sequencing policy *)

(** A block whose number, complement, payload and trailer were read and
    found valid reaches the sequencing decision. *)
Lemma receiveBlock_validated useCRC s bn comp m1 m2 data rest t c w3 :
  headerByte s = SOH ->
  bn + comp = 255 ->
  length data = BLOCK_SIZE ->
  readTrailer useCRC data (mkWorld rest t c) = (Some true, w3) ->
  receiveBlock useCRC s
    (mkWorld (ReadOk (bn :: m1) :: ReadOk (comp :: m2) :: ReadOk data :: rest)
       t c)
  = (if (bn =? expectedBlock s - 1) && (expectedBlock s >? 1)
     then writeByte ACK ;; readNextHeader s
     else if bn =? expectedBlock s
     then writeByte ACK ;; readNextHeader (accept_block s data)
     else writeByte NAK ;; ret s) w3.
Proof.
  intros Hhdr Hsum Hlen Htrailer.
  unfold receiveBlock. rewrite Hhdr. cbn [Z.eqb SOH Pos.eqb].
  rewrite (bind_run _ _ _ _ _ (readByte_got _ _ _ _ _ _)).
  cbn [Z.leb Z.compare].
  rewrite (bind_run _ _ _ _ _ (readByte_got _ _ _ _ _ _)).
  cbn [Z.leb Z.compare].
  rewrite Hsum. cbn [Z.eqb Pos.eqb negb].
  rewrite (bind_run _ _ _ _ _ (readBlock_full _ _ _ _ Hlen)).
  rewrite Z.eqb_refl. cbn [negb].
  rewrite (bind_run _ _ _ _ _ Htrailer).
  cbn [negb]. reflexivity.
Qed.

Lemma readTrailer_tx useCRC data w v w' :
  readTrailer useCRC data w = (v, w') -> tx w' = tx w.
Proof.
  unfold readTrailer, bind. destruct useCRC.
  - destruct (readByteWithTimeout 0 w) as [[rh hi] w1] eqn:E1.
    apply readByteWithTimeout_run in E1. destruct E1 as (H1 & _).
    destruct (rh <=? 0); [intros H; inversion H; subst; exact H1|].
    destruct (readByteWithTimeout 0 w1) as [[rl lo] w2] eqn:E2.
    apply readByteWithTimeout_run in E2. destruct E2 as (H2 & _).
    destruct (rl <=? 0); intros H; inversion H; subst; congruence.
  - destruct (readByteWithTimeout 0 w) as [[r b] w1] eqn:E1.
    apply readByteWithTimeout_run in E1. destruct E1 as (H1 & _).
    destruct (r <=? 0); intros H; inversion H; subst; exact H1.
Qed.

(** C5: a received block that passes the complement and the check
    validation is handled by its number alone.  A duplicate of the last
    accepted block ([blockNumber = expectedBlock - 1] with
    [expectedBlock > 1]) is answered ACK and leaves the sink and
    [expectedBlock] as they were; the expected block has its 128-byte
    payload appended to the sink, is answered ACK and increments
    [expectedBlock] (as an 8-bit counter); any other number is answered NAK
    and changes neither the sink nor [expectedBlock]. *)
Theorem receiver_sequencing
    (useCRC : bool) (s : Receiver) (bn comp : Z) (m1 m2 data : list Z)
    (rest : list ReadOutcome) (t : list (list Z)) (c : list Z) (w3 : World) :
  headerByte s = SOH ->
  bn + comp = 255 ->
  length data = BLOCK_SIZE ->
  readTrailer useCRC data (mkWorld rest t c) = (Some true, w3) ->
  let run := receiveBlock useCRC s
    (mkWorld (ReadOk (bn :: m1) :: ReadOk (comp :: m2) :: ReadOk data :: rest)
       t c) in
  (bn = expectedBlock s - 1 /\ expectedBlock s > 1 ->
     file (fst run) = file s
     /\ expectedBlock (fst run) = expectedBlock s
     /\ exists more, tx (snd run) = t ++ [ACK] :: more)
  /\ (bn = expectedBlock s ->
     file (fst run) = ofstream_write (file s) data
     /\ (fail (file s) = false ->
         contents (file (fst run)) = contents (file s) ++ data)
     /\ expectedBlock (fst run) = u8 (expectedBlock s + 1)
     /\ exists more, tx (snd run) = t ++ [ACK] :: more)
  /\ (bn <> expectedBlock s ->
      ~ (bn = expectedBlock s - 1 /\ expectedBlock s > 1) ->
     fst run = s /\ tx (snd run) = t ++ [[NAK]]).
Proof.
  intros Hhdr Hsum Hlen Htrailer run.
  pose proof (readTrailer_tx _ _ _ _ _ Htrailer) as Ht3. cbn [tx] in Ht3.
  assert (Hrun : run
    = (if (bn =? expectedBlock s - 1) && (expectedBlock s >? 1)
       then writeByte ACK ;; readNextHeader s
       else if bn =? expectedBlock s
       then writeByte ACK ;; readNextHeader (accept_block s data)
       else writeByte NAK ;; ret s) w3)
    by (apply (receiveBlock_validated useCRC s bn comp m1 m2 data rest t c w3);
        assumption).
  clearbody run. subst run.
  split; [|split].
  - intros [Hdup Hgt].
    assert (E : (bn =? expectedBlock s - 1) && (expectedBlock s >? 1) = true)
      by (apply andb_true_iff; split; [apply Z.eqb_eq; exact Hdup | lia]).
    rewrite E. rewrite (bind_run _ _ _ _ _ (writeByte_any _ _)).
    destruct (readNextHeader_run s
                (mkWorld (rx w3) (tx w3 ++ [[ACK]]) (clock w3)))
      as (Hf & He & more & Htx).
    repeat split; [exact Hf | exact He |].
    exists more. rewrite Htx. cbn [tx]. rewrite Ht3, <- app_assoc.
    reflexivity.
  - intros Heq.
    assert (E : (bn =? expectedBlock s - 1) && (expectedBlock s >? 1) = false)
      by (apply andb_false_iff; left; apply Z.eqb_neq; lia).
    rewrite E. rewrite (proj2 (Z.eqb_eq _ _) Heq).
    rewrite (bind_run _ _ _ _ _ (writeByte_any _ _)).
    destruct (readNextHeader_run (accept_block s data)
                (mkWorld (rx w3) (tx w3 ++ [[ACK]]) (clock w3)))
      as (Hf & He & more & Htx).
    split; [exact Hf|]. split.
    + intros Hgood. rewrite Hf. cbn [accept_block file].
      unfold ofstream_write. rewrite Hgood. reflexivity.
    + split; [exact He|].
      exists more. rewrite Htx. cbn [tx]. rewrite Ht3, <- app_assoc.
      reflexivity.
  - intros Hne Hnodup.
    assert (E : (bn =? expectedBlock s - 1) && (expectedBlock s >? 1) = false).
    { destruct (Z.eqb_spec bn (expectedBlock s - 1)) as [E1|E1];
        [|reflexivity].
      destruct (Z.gtb_spec (expectedBlock s) 1) as [E2|E2];
        [|reflexivity].
      exfalso. apply Hnodup. split; [exact E1 | lia]. }
    rewrite E. rewrite (proj2 (Z.eqb_neq _ _) Hne).
    rewrite (bind_run _ _ _ _ _ (writeByte_any _ _)).
    cbn [ret fst snd tx]. rewrite Ht3. split; reflexivity.
Qed.

(** ** Retry bounding in the sender *)

Lemma BLOCK_SIZE_eq : BLOCK_SIZE = 128%nat.
Proof. reflexivity. Qed.

Lemma u8_succ (bn : Z) (i : nat) :
  u8 (u8 (bn + 1) + Z.of_nat i) = u8 (bn + Z.of_nat (S i)).
Proof.
  unfold u8. rewrite Zplus_mod_idemp_l. f_equal. lia.
Qed.

Lemma file_block_skip (src : list Z) (i : nat) :
  file_block (skipn BLOCK_SIZE src) i = file_block src (S i).
Proof.
  unfold file_block. rewrite skipn_skipn.
  replace (i * BLOCK_SIZE + BLOCK_SIZE)%nat with (S i * BLOCK_SIZE)%nat
    by (cbn [Nat.mul]; lia).
  reflexivity.
Qed.

Lemma sendBlock_acked left useCRC b buffer rest t c :
  sendBlock (S left) useCRC b buffer (mkWorld (ReadOk [ACK] :: rest) t c)
  = (BlockAcked, mkWorld rest (t ++ [packet useCRC b buffer]) c).
Proof. reflexivity. Qed.

Lemma sendBlock_all_nak left useCRC b buffer rest t c :
  sendBlock left useCRC b buffer
    (mkWorld (repeat (ReadOk [NAK]) left ++ rest) t c)
  = (BlockNotAcked,
     mkWorld rest (t ++ repeat (packet useCRC b buffer) left) c).
Proof.
  revert t. induction left as [|left IH]; intros t.
  - cbn. now rewrite app_nil_r.
  - cbn [repeat app sendBlock].
    unfold bind at 1. unfold writeAll at 1, WriteFile at 1.
    cbn [rx tx clock].
    rewrite (bind_run _ _ _ _ _ (readByte_got _ _ _ _ _ _)).
    cbn [Z.gtb Z.compare Z.eqb Pos.eqb NAK ACK].
    rewrite IH, <- app_assoc. reflexivity.
Qed.

Lemma sendBlocks_nak_after_acks useCRC :
  forall (k fuel : nat) (src : list Z) (bn : Z) rest t c,
  is_u8 bn ->
  (k * BLOCK_SIZE < length src)%nat ->
  (k < fuel)%nat ->
  sendBlocks fuel useCRC src bn
    (mkWorld (repeat (ReadOk [ACK]) k
              ++ repeat (ReadOk [NAK]) MAX_RETRIES ++ rest) t c)
  = (Returned false,
     mkWorld rest
       (t ++ map (fun i => packet useCRC (u8 (bn + Z.of_nat i))
                             (file_block src i)) (seq 0 k)
          ++ repeat (packet useCRC (u8 (bn + Z.of_nat k)) (file_block src k))
               MAX_RETRIES) c).
Proof.
  induction k as [|k IH]; intros fuel src bn rest t c Hbn Hlen Hfuel;
    (destruct fuel as [|fuel]; [lia|]); cbn [sendBlocks].
  - assert (Hne : (length (firstn BLOCK_SIZE src) =? 0)%nat = false).
    { apply Nat.eqb_neq. rewrite length_firstn, BLOCK_SIZE_eq. cbn in Hlen.
      lia. }
    rewrite Hne. cbn [repeat app seq map].
    rewrite (bind_run _ _ _ _ _ (sendBlock_all_nak _ _ _ _ _ _ _)).
    cbn [ret]. unfold file_block. cbn [Nat.mul skipn].
    rewrite Z.add_0_r. unfold u8 at 1.
    rewrite (Z.mod_small bn 256) by exact Hbn. reflexivity.
  - assert (Hne : (length (firstn BLOCK_SIZE src) =? 0)%nat = false).
    { apply Nat.eqb_neq. rewrite length_firstn, BLOCK_SIZE_eq.
      cbn [Nat.mul] in Hlen. lia. }
    rewrite Hne. cbn [repeat app].
    change MAX_RETRIES with (S 9) at 1.
    rewrite (bind_run _ _ _ _ _ (sendBlock_acked _ _ _ _ _ _ _)).
    rewrite IH.
    + f_equal. f_equal. rewrite <- app_assoc. f_equal.
      change (seq 0 (S k)) with (0%nat :: seq 1 k).
      rewrite <- seq_shift. cbn [map app]. rewrite map_map.
      f_equal.
      * unfold file_block. cbn [Nat.mul skipn]. rewrite Z.add_0_r.
        unfold u8 at 1. rewrite (Z.mod_small bn 256) by exact Hbn.
        reflexivity.
      * f_equal.
        -- apply map_ext. intros i. now rewrite u8_succ, file_block_skip.
        -- now rewrite u8_succ, file_block_skip.
    + unfold is_u8, u8. apply Z.mod_pos_bound. lia.
    + rewrite length_skipn. cbn [Nat.mul] in Hlen. lia.
    + lia.
Qed.

(** C6: whatever the file and the mode, when the peer acknowledges the
    first [k] blocks and then answers NAK to the next one, [sendFile]
    writes that block's frame exactly [MAX_RETRIES] (10) times after the
    [k] acknowledged frames, reads the ten answers and returns false. *)
Theorem sender_retry_bound
    (useCRC : bool) (src : list Z) (k fuel : nat)
    (rest : list ReadOutcome) (t : list (list Z)) (c : list Z) :
  (k * BLOCK_SIZE < length src)%nat ->
  (k < fuel)%nat ->
  sendFile fuel (Some src)
    (mkWorld (ReadOk [if useCRC then C else NAK]
              :: repeat (ReadOk [ACK]) k
              ++ repeat (ReadOk [NAK]) MAX_RETRIES ++ rest) t c)
  = (Returned false,
     mkWorld rest
       (t ++ map (fun i => packet useCRC (u8 (1 + Z.of_nat i))
                             (file_block src i)) (seq 0 k)
          ++ repeat (packet useCRC (u8 (1 + Z.of_nat k)) (file_block src k))
               MAX_RETRIES) c).
Proof.
  intros Hlen Hfuel. destruct fuel as [|fuel]; [lia|].
  unfold sendFile.
  assert (Hinit : awaitInitiation (S fuel) 0
            (mkWorld (ReadOk [if useCRC then C else NAK]
                      :: repeat (ReadOk [ACK]) k
                      ++ repeat (ReadOk [NAK]) MAX_RETRIES ++ rest) t c)
          = (Initiated useCRC,
             mkWorld (repeat (ReadOk [ACK]) k
                      ++ repeat (ReadOk [NAK]) MAX_RETRIES ++ rest) t c))
    by (destruct useCRC; reflexivity).
  rewrite (bind_run _ _ _ _ _ Hinit).
  apply sendBlocks_nak_after_acks; [unfold is_u8; lia | exact Hlen | lia].
Qed.

(** ** The start phase of the receiver: an EOT before any block *)

Lemma no_start_cases (o : ReadOutcome) :
  no_start o = true ->
  o = ReadFailed \/ o = ReadOk []
  \/ exists b more, o = ReadOk (b :: more)
                    /\ (b =? SOH) = false /\ (b =? EOT) = false.
Proof.
  destruct o as [|[|b more]]; auto. unfold no_start, first_byte.
  intros H. apply andb_true_iff in H. destruct H as [H1 H2].
  apply negb_true_iff in H1, H2. right. right. now exists b, more.
Qed.

Lemma awaitStart_EOT useCRC :
  forall (junk : list ReadOutcome) (left : nat) more rest t c,
  Forall (fun o => no_start o = true) junk ->
  (length junk < left)%nat ->
  awaitStart left useCRC
    (mkWorld (junk ++ ReadOk (EOT :: more) :: rest) t c)
  = (StartEOT,
     mkWorld rest
       (t ++ repeat [mode_byte useCRC] (S (length junk)) ++ [[ACK]]) c).
Proof.
  induction junk as [|o junk IH]; intros left more rest t c Hjunk Hleft;
    (destruct left as [|left]; [cbn in Hleft; lia|]).
  - cbn [awaitStart app length repeat].
    rewrite (bind_run _ _ _ _ _ (writeByte_run _ _ _ _)).
    rewrite (bind_run _ _ _ _ _ (readByte_got _ _ _ _ _ _)).
    cbn [Z.gtb Z.compare Z.eqb Pos.eqb EOT SOH].
    rewrite (bind_run _ _ _ _ _ (writeByte_run _ _ _ _)).
    cbn [ret]. now rewrite <- app_assoc.
  - inversion Hjunk as [|? ? Ho Hrest]; subst.
    cbn [length] in Hleft.
    assert (Hstep : awaitStart (S left) useCRC
              (mkWorld ((o :: junk) ++ ReadOk (EOT :: more) :: rest) t c)
            = awaitStart left useCRC
                (mkWorld (junk ++ ReadOk (EOT :: more) :: rest)
                   (t ++ [[mode_byte useCRC]]) c)).
    { cbn [awaitStart app].
      rewrite (bind_run _ _ _ _ _ (writeByte_run _ _ _ _)).
      destruct (no_start_cases o Ho) as [-> | [-> | (b & m & -> & H1 & H2)]];
        try reflexivity.
      rewrite (bind_run _ _ _ _ _ (readByte_got _ _ _ _ _ _)).
      cbn [Z.gtb Z.compare]. now rewrite H1, H2. }
    rewrite Hstep, IH by (auto; lia).
    cbn [length repeat app]. now rewrite <- app_assoc.
Qed.

Lemma XModem_awaitStart_EOT useCRC startTime :
  forall (junk : list ReadOutcome) (left : nat) (readings : list Z)
         more rest t later,
  Forall (fun o => no_start o = true) junk ->
  (length junk < left)%nat ->
  length readings = length junk ->
  Forall (fun now => XModem.minute_elapsed startTime now = false) readings ->
  XModem.awaitStart left useCRC startTime
    (mkWorld (junk ++ ReadOk (EOT :: more) :: rest) t (readings ++ later))
  = (StartEOT,
     mkWorld rest
       (t ++ repeat [mode_byte useCRC] (S (length junk)) ++ [[ACK]]) later).
Proof.
  induction junk as [|o junk IH];
    intros left readings more rest t later Hjunk Hleft Hlen Hclock;
    (destruct left as [|left]; [cbn in Hleft; lia|]).
  - destruct readings; [|discriminate].
    cbn [XModem.awaitStart app length repeat].
    rewrite (bind_run _ _ _ _ _ (announceMode_run _ _ _ _)).
    rewrite (bind_run _ _ _ _ _ (readByte_got _ _ _ _ _ _)).
    cbn [Z.gtb Z.compare Z.eqb Pos.eqb EOT SOH].
    rewrite (bind_run _ _ _ _ _ (writeByte_run _ _ _ _)).
    cbn [ret]. now rewrite <- app_assoc.
  - destruct readings as [|now readings]; [discriminate|].
    inversion Hjunk as [|? ? Ho Hrest]; subst.
    inversion Hclock as [|? ? Hnow Hlater]; subst.
    cbn [length] in Hleft, Hlen.
    assert (Hstep : XModem.awaitStart (S left) useCRC startTime
              (mkWorld ((o :: junk) ++ ReadOk (EOT :: more) :: rest) t
                 ((now :: readings) ++ later))
            = XModem.awaitStart left useCRC startTime
                (mkWorld (junk ++ ReadOk (EOT :: more) :: rest)
                   (t ++ [[mode_byte useCRC]]) (readings ++ later))).
    { cbn [XModem.awaitStart app].
      rewrite (bind_run _ _ _ _ _ (announceMode_run _ _ _ _)).
      destruct (no_start_cases o Ho) as [-> | [-> | (b & m & -> & H1 & H2)]].
      - unfold bind, readByteWithTimeout, readWithTimeout, bind, ReadFile,
          steady_now; cbn. now rewrite Hnow.
      - unfold bind, readByteWithTimeout, readWithTimeout, bind, ReadFile,
          steady_now; cbn. now rewrite Hnow.
      - rewrite (bind_run _ _ _ _ _ (readByte_got _ _ _ _ _ _)).
        cbn [Z.gtb Z.compare]. rewrite H1, H2.
        unfold bind, steady_now; cbn [clock rx tx]. now rewrite Hnow. }
    rewrite Hstep, IH by (auto; lia).
    cbn [length repeat app]. now rewrite <- app_assoc.
Qed.

(** C7: when the start phase reads EOT — on its first attempt, or after
    fewer than six attempts that brought no byte or a byte other than SOH
    and EOT — the receiver writes ACK right after the mode byte of that
    attempt, [receiveFile] returns true, and nothing was written to the
    output file.  Both implementations; in the class the clock readings
    taken after the failed attempts stay below one minute. *)
Theorem empty_file_acknowledged
    (useCRC openable : bool) (fuel : nat) (junk : list ReadOutcome)
    (more : list Z) (rest : list ReadOutcome) (t : list (list Z))
    (c : list Z) (startTime : Z) (readings later : list Z) :
  Forall (fun o => no_start o = true) junk ->
  (length junk < 6)%nat ->
  length readings = length junk ->
  Forall (fun now => XModem.minute_elapsed startTime now = false) readings ->
  receiveFile fuel useCRC openable
    (mkWorld (junk ++ ReadOk (EOT :: more) :: rest) t c)
  = ((Returned true, {| fail := negb openable; contents := [] |}),
     mkWorld rest
       (t ++ repeat [mode_byte useCRC] (S (length junk)) ++ [[ACK]]) c)
  /\ XModem.receiveFile fuel useCRC true
       (mkWorld (junk ++ ReadOk (EOT :: more) :: rest) t
          (startTime :: readings ++ later))
     = ((Returned true, {| fail := false; contents := [] |}),
        mkWorld rest
          (t ++ repeat [mode_byte useCRC] (S (length junk)) ++ [[ACK]])
          later).
Proof.
  intros Hjunk Hlen Hreadings Hclock. split.
  - unfold receiveFile.
    rewrite (bind_run _ _ _ _ _
               (awaitStart_EOT useCRC junk 6 more rest t c Hjunk Hlen)).
    reflexivity.
  - unfold XModem.receiveFile. cbn [ofstream_open fail negb].
    unfold bind at 1, steady_now at 1. cbn [clock rx tx].
    rewrite (bind_run _ _ _ _ _
               (XModem_awaitStart_EOT useCRC startTime junk 6 readings
                  more rest t later Hjunk Hlen Hreadings Hclock)).
    reflexivity.
Qed.

(** ** Invariants of the block-reception loop *)

Ltac run_reads :=
  repeat (cbv beta iota;
    match goal with
    | |- context [readByteWithTimeout ?o ?w] =>
        let E := fresh "E" in
        destruct (readByteWithTimeout o w) as [[? ?] ?] eqn:E;
        apply readByteWithTimeout_run in E; cbn [rx tx clock] in E;
        destruct E as (? & ? & ? & ?)
    | |- context [readWithTimeout ?n ?w] =>
        let E := fresh "E" in
        destruct (readWithTimeout n w) as [[? ?] ?] eqn:E;
        apply readWithTimeout_run in E; cbn [rx tx clock] in E;
        destruct E as (? & ? & ? & ?)
    | |- context [if ?c then _ else _] => destruct c eqn:?
    | |- context [match ?x with Some _ => _ | None => _ end] =>
        destruct x eqn:?
    end).

Ltac unfold_receiver :=
  unfold receiveBlock, readNextHeader, readTrailer, announceMode,
    writeByte, writeAll, WriteFile, bind, ret.

(** Every write to the sink is one full block. *)
Lemma receiveBlock_file useCRC s w :
  file (fst (receiveBlock useCRC s w)) = file s
  \/ exists dataBlock, length dataBlock = BLOCK_SIZE
       /\ file (fst (receiveBlock useCRC s w))
          = ofstream_write (file s) dataBlock.
Proof.
  unfold_receiver. run_reads; cbn [fst file accept_block set_headerByte
    stop_receiving]; auto; right; eauto.
Qed.

Lemma ofstream_write_whole f dataBlock :
  whole_blocks f -> length dataBlock = BLOCK_SIZE ->
  whole_blocks (ofstream_write f dataBlock).
Proof.
  intros [k Hk] Hlen. unfold ofstream_write.
  destruct (fail f); [now exists k|].
  exists (S k). cbn [contents Nat.mul]. rewrite length_app. lia.
Qed.

Lemma receiveLoop_whole useCRC :
  forall n s w, whole_blocks (file s) ->
  whole_blocks (file (fst (receiveLoop n useCRC s w))).
Proof.
  induction n as [|n IH]; intros s w H; cbn [receiveLoop].
  - exact H.
  - destruct (receiving s); [|exact H].
    unfold bind. pose proof (receiveBlock_file useCRC s w) as Hstep.
    destruct (receiveBlock useCRC s w) as [s1 w1]. cbn [fst] in Hstep.
    apply IH. destruct Hstep as [-> | (d & Hd & ->)];
      [exact H | now apply ofstream_write_whole].
Qed.

Lemma Forall_tl {A : Type} (P : A -> Prop) (l : list A) :
  Forall P l -> Forall P (tl l).
Proof. intros H. destruct H; [constructor | assumption]. Qed.

Lemma header_read_not_EOT (l : list ReadOutcome) (old r b : Z) :
  Forall (fun o => not_EOT o = true) l ->
  old <> EOT ->
  (r <= 0 /\ b = old)
  \/ (r = 1 /\ exists o, hd_error l = Some o /\ first_byte o = Some b) ->
  b <> EOT.
Proof.
  intros Hl Hold [[_ ->] | (_ & o & Hhd & Hb)]; [exact Hold|].
  destruct l as [|o' l]; [discriminate|]. cbn in Hhd. inversion Hhd; subst.
  inversion Hl as [|? ? Ho _]; subst. unfold not_EOT in Ho.
  rewrite Hb in Ho. apply negb_true_iff in Ho. now apply Z.eqb_neq.
Qed.

(** The loop is left only through an EOT header: as long as no read hands
    over EOT as its first byte, an iteration keeps the receiver in the
    loop. *)
Lemma receiveBlock_keeps_receiving useCRC s w :
  receiving s = true ->
  headerByte s <> EOT ->
  Forall (fun o => not_EOT o = true) (rx w) ->
  receiving (fst (receiveBlock useCRC s w)) = true
  /\ headerByte (fst (receiveBlock useCRC s w)) <> EOT
  /\ Forall (fun o => not_EOT o = true) (rx (snd (receiveBlock useCRC s w))).
Proof.
  intros Hrcv Hhdr Hrx. unfold_receiver. run_reads;
    cbn [fst snd rx receiving headerByte accept_block set_headerByte
         stop_receiving];
    repeat match goal with
           | H : rx ?a = tl _ |- _ => rewrite H in *; clear H
           end.
  all: try (split; [exact Hrcv | split; [exact Hhdr | repeat apply Forall_tl; exact Hrx]]).
  all: try (exfalso; apply Hhdr; apply Z.eqb_eq; assumption).
  all: match goal with
       | H : _ <= 0 /\ ?b = headerByte _ \/ _ |- _ =>
           assert (Hb : b <> EOT)
             by (eapply header_read_not_EOT; [ | exact Hhdr | exact H];
                 repeat apply Forall_tl; exact Hrx)
       end.
  all: try (exfalso; apply Hb; apply Z.eqb_eq; assumption).
  all: split; [exact Hrcv | split; [exact Hb |
         repeat apply Forall_tl; exact Hrx]].
Qed.

Lemma receiveLoop_keeps_receiving useCRC :
  forall n s w,
  receiving s = true ->
  headerByte s <> EOT ->
  Forall (fun o => not_EOT o = true) (rx w) ->
  receiving (fst (receiveLoop n useCRC s w)) = true.
Proof.
  induction n as [|n IH]; intros s w Hrcv Hhdr Hrx; cbn [receiveLoop].
  - exact Hrcv.
  - rewrite Hrcv. unfold bind.
    pose proof (receiveBlock_keeps_receiving useCRC s w Hrcv Hhdr Hrx)
      as (H1 & H2 & H3).
    destruct (receiveBlock useCRC s w) as [s1 w1]. cbn [fst snd] in *.
    now apply IH.
Qed.

Lemma receiveFileOf_start impl fuel useCRC openable w :
  receiveFileOf impl fuel useCRC openable w
  = (st <- startPhase impl useCRC (ofstream_open openable) ;;
     match st with
     | StartEOT => ret (Returned true, ofstream_open openable)
     | StartFailed => ret (Returned false, ofstream_open openable)
     | StartSOH => receiveBlocks fuel useCRC (ofstream_open openable)
     end) w.
Proof.
  destruct impl; cbn [receiveFileOf startPhase]; [reflexivity|].
  unfold XModem.receiveFile.
  destruct (fail (ofstream_open openable)); [reflexivity|].
  unfold bind. destruct (steady_now w) as [startTime w0].
  reflexivity.
Qed.

Lemma receiveFileOf_loop impl fuel useCRC openable w w1 :
  startPhase impl useCRC (ofstream_open openable) w = (StartSOH, w1) ->
  receiveFileOf impl fuel useCRC openable w
  = receiveBlocks fuel useCRC (ofstream_open openable) w1.
Proof.
  intros H. rewrite receiveFileOf_start.
  now rewrite (bind_run _ _ _ _ _ H).
Qed.

(** C1, as the specification states it, fails: after SOH a silent channel
    makes every read of the block number fail, and [receiveFile] never
    returns, so it never reports failure. *)
Lemma receiver_silent_peer_never_fails :
  ~ exists fuel result,
      fst (fst (receiveFile fuel false true (hears [ReadOk [SOH]])))
      = Returned result.
Proof.
  intros (fuel & result & H).
  unfold receiveFile, hears in H.
  assert (Hstart : awaitStart 6 false (mkWorld [ReadOk [SOH]] [] [])
                   = (StartSOH, mkWorld [] [[NAK]] []))
    by reflexivity.
  rewrite (bind_run _ _ _ _ _ Hstart) in H.
  unfold receiveBlocks, bind in H.
  pose proof (receiveLoop_keeps_receiving false fuel
                (initialReceiver (ofstream_open true))
                (mkWorld [] [[NAK]] [])) as Hloop.
  destruct (receiveLoop fuel false (initialReceiver (ofstream_open true))
              (mkWorld [] [[NAK]] [])) as [s1 w1].
  cbn [fst ret] in H, Hloop.
  rewrite Hloop in H; [discriminate | reflexivity | discriminate | constructor].
Qed.

(** As long as no read hands over EOT as its first byte the receiver
    stays in the block-reception loop. *)
Lemma receiveFileOf_without_EOT
    (impl : Implementation) (useCRC openable : bool) (fuel : nat)
    (w w1 : World) :
  startPhase impl useCRC (ofstream_open openable) w = (StartSOH, w1) ->
  Forall (fun o => not_EOT o = true) (rx w1) ->
  fst (fst (receiveFileOf impl fuel useCRC openable w)) = Running.
Proof.
  intros Hstart Hrx.
  rewrite (receiveFileOf_loop _ _ _ _ _ _ Hstart).
  unfold receiveBlocks, bind.
  pose proof (receiveLoop_keeps_receiving useCRC fuel
                (initialReceiver (ofstream_open openable)) w1) as Hloop.
  destruct (receiveLoop fuel useCRC (initialReceiver (ofstream_open openable))
              w1) as [s1 w2].
  cbn [fst ret] in *.
  rewrite Hloop; [reflexivity | reflexivity | discriminate | exact Hrx].
Qed.

(** ** Unopenable files *)

Lemma sendFile_unopened fuel w :
  sendFile fuel None w = (Returned false, w).
Proof. reflexivity. Qed.

Lemma XModem_receiveFile_unopened fuel useCRC w :
  XModem.receiveFile fuel useCRC false w
  = ((Returned false, ofstream_open false), w).
Proof. reflexivity. Qed.

(** C8 fails in the procedural receiver: it never tests the stream it
    opened.  With an output path that cannot be opened and a peer that
    sends EOT, it writes NAK, reads, writes ACK and returns true. *)
Theorem receiveFile_ignores_unopened_sink :
  receiveFile 0 false false (hears [ReadOk [EOT]])
  = ((Returned true, {| fail := true; contents := [] |}),
     mkWorld [] [[NAK]; [ACK]] []).
Proof. reflexivity. Qed.

(** C10: once the start phase has seen SOH and the block-reception loop is
    entered, every execution of [receiveFile] that returns, returns true:
    no failure is reported from the block-reception loop, only from the
    start phase.  Both implementations. *)
Theorem loop_exit_is_success
    (impl : Implementation) (useCRC openable : bool) (fuel : nat)
    (w : World) :
  fst (startPhase impl useCRC (ofstream_open openable) w) = StartSOH ->
  fst (fst (receiveFileOf impl fuel useCRC openable w)) <> Running ->
  fst (fst (receiveFileOf impl fuel useCRC openable w)) = Returned true.
Proof.
  intros Hstart.
  destruct (startPhase impl useCRC (ofstream_open openable) w)
    as [st w1] eqn:E.
  cbn [fst] in Hstart. subst st.
  rewrite (receiveFileOf_loop _ _ _ _ _ _ E).
  unfold receiveBlocks, bind.
  destruct (receiveLoop fuel useCRC (initialReceiver (ofstream_open openable))
              w1) as [s1 w2].
  cbn [fst ret]. destruct (receiving s1); intros H;
    [now elim H | reflexivity].
Qed.

(** ** The theorems at concrete executions *)

Lemma receiver_sequencing_witness :
  let run :=
    receiveBlock false (initialReceiver (ofstream_open true))
      (mkWorld (frame_reads false 1 block_a ++ [ReadOk [EOT]]) [[NAK]] []) in
  contents (file (fst run)) = block_a
  /\ expectedBlock (fst run) = 2
  /\ exists more, tx (snd run) = [[NAK]] ++ [ACK] :: more.
Proof.
  intros run.
  assert (Htrailer :
    readTrailer false block_a
      (mkWorld [ReadOk [calculateChecksum block_a]; ReadOk [EOT]] [[NAK]] [])
    = (Some true, mkWorld [ReadOk [EOT]] [[NAK]] []))
    by (vm_compute; reflexivity).
  destruct (receiver_sequencing false (initialReceiver (ofstream_open true))
              1 254 [] [] block_a
              [ReadOk [calculateChecksum block_a]; ReadOk [EOT]] [[NAK]] []
              (mkWorld [ReadOk [EOT]] [[NAK]] [])
              eq_refl eq_refl eq_refl Htrailer)
    as (_ & Hexpected & _).
  destruct (Hexpected eq_refl) as (_ & Hgrow & Hnext & Hack).
  split; [exact (Hgrow eq_refl) | split; [exact Hnext | exact Hack]].
Defined.

Lemma sender_retry_bound_witness :
  sendFile 3 (Some (repeat 65 300))
    (hears (ReadOk [NAK] :: ReadOk [ACK] :: repeat (ReadOk [NAK]) 10))
  = (Returned false,
     mkWorld []
       (packet false 1 (file_block (repeat 65 300) 0)
        :: repeat (packet false 2 (file_block (repeat 65 300) 1)) 10) []).
Proof.
  assert (H1 : (1 * BLOCK_SIZE < length (repeat 65 300))%nat)
    by (rewrite repeat_length, BLOCK_SIZE_eq; lia).
  assert (H2 : (1 < 3)%nat) by lia.
  exact (sender_retry_bound false (repeat 65 300) 1 3 [] [] [] H1 H2).
Defined.

Lemma empty_file_acknowledged_witness :
  receiveFile 0 false true (hears [ReadOk [0x55]; ReadOk []; ReadOk [EOT]])
  = ((Returned true, {| fail := false; contents := [] |}),
     mkWorld [] [[NAK]; [NAK]; [NAK]; [ACK]] [])
  /\ XModem.receiveFile 0 false true
       (mkWorld [ReadOk [0x55]; ReadOk []; ReadOk [EOT]] []
          [0; 1000000000; 20000000000])
     = ((Returned true, {| fail := false; contents := [] |}),
        mkWorld [] [[NAK]; [NAK]; [NAK]; [ACK]] []).
Proof.
  assert (H1 : Forall (fun o => no_start o = true) [ReadOk [0x55]; ReadOk []])
    by (repeat constructor).
  assert (H2 : Nat.lt (length [ReadOk [0x55]; ReadOk []]) 6) by (simpl; lia).
  assert (H3 : Forall (fun now => XModem.minute_elapsed 0 now = false)
                 [1000000000; 20000000000])
    by (repeat constructor).
  exact (empty_file_acknowledged false true 0 [ReadOk [0x55]; ReadOk []]
           [] [] [] [] 0 [1000000000; 20000000000] [] H1 H2 eq_refl H3).
Defined.

Lemma loop_exit_is_success_witness :
  fst (fst (receiveFileOf Class 5 true true
              (hears ([ReadOk [SOH]] ++ frame_reads true 1 block_a
                      ++ [ReadOk [EOT]]))))
  = Returned true.
Proof.
  apply (loop_exit_is_success Class true true 5).
  - reflexivity.
  - vm_compute. discriminate.
Defined.

(** * Further properties of the engines *)

(** ** The 8-bit checksum *)

Lemma byte_sum_app (a b : list Z) :
  byte_sum (a ++ b) = byte_sum a + byte_sum b.
Proof.
  unfold byte_sum. induction a as [|x a IH]; cbn [app fold_right];
    [reflexivity | rewrite IH; lia].
Qed.

(** X1: the checksum of a concatenation is the 8-bit sum of the checksums
    of the parts. *)
Theorem calculateChecksum_app (a b : list Z) :
  calculateChecksum (a ++ b)
  = u8 (calculateChecksum a + calculateChecksum b).
Proof.
  rewrite !calculateChecksum_sum, byte_sum_app. unfold u8.
  apply Zplus_mod.
Qed.

(** X2: the checksum tells apart two payloads that differ in exactly one
    byte. *)
Theorem calculateChecksum_detects_one_byte (p q : list Z) (x y : Z) :
  is_u8 x -> is_u8 y -> x <> y ->
  calculateChecksum (p ++ x :: q) <> calculateChecksum (p ++ y :: q).
Proof.
  unfold is_u8. intros Hx Hy Hxy H.
  rewrite !calculateChecksum_sum, !byte_sum_app in H.
  change (byte_sum (x :: q)) with (x + byte_sum q) in H.
  change (byte_sum (y :: q)) with (y + byte_sum q) in H.
  set (a := byte_sum p + (x + byte_sum q)) in H.
  set (b := byte_sum p + (y + byte_sum q)) in H.
  assert (E : (a - b) mod 256 = 0)
    by (rewrite Zminus_mod, H, Z.sub_diag; reflexivity).
  apply Z.mod_divide in E; [|lia]. destruct E as [k Hk].
  subst a b. lia.
Qed.

Lemma calculateChecksum_detects_one_byte_witness :
  calculateChecksum ([1; 2] ++ 3 :: [4]) <> calculateChecksum ([1; 2] ++ 7 :: [4]).
Proof.
  apply calculateChecksum_detects_one_byte; unfold is_u8; lia.
Defined.

(** X3: the checksum does not see the order of the bytes: any
    rearrangement of a payload has the same checksum. *)
Theorem calculateChecksum_permutation (a b : list Z) :
  Permutation a b -> calculateChecksum a = calculateChecksum b.
Proof.
  intros H. rewrite !calculateChecksum_sum. f_equal.
  unfold byte_sum. induction H; cbn [fold_right]; lia.
Qed.

Lemma calculateChecksum_permutation_witness :
  calculateChecksum [1; 2; 3] = calculateChecksum [2; 1; 3].
Proof.
  apply calculateChecksum_permutation. apply perm_swap.
Defined.

(** ** CRC16 *)

Lemma calculateCRC16_range_from (data : list Z) (acc : Z) :
  is_u16 acc -> is_u16 (fold_left crc16_step data acc).
Proof.
  revert acc. induction data as [|b data IH]; intros acc H; cbn [fold_left].
  - exact H.
  - apply IH. apply u16_range.
Qed.

Lemma calculateCRC16_range (data : list Z) : is_u16 (calculateCRC16 data).
Proof. apply calculateCRC16_range_from. unfold is_u16. lia. Qed.

Lemma shiftr_8_range (crc : Z) : is_u16 crc -> is_u8 (Z.shiftr crc 8).
Proof.
  intros H. apply (bits_bound _ 8); [lia|]. intros i Hi.
  rewrite Z.shiftr_spec by lia. apply (bits_above crc 16); [exact H|lia|lia].
Qed.

Lemma u8_small (z : Z) : is_u8 z -> u8 z = z.
Proof. intros H. apply Z.mod_small. exact H. Qed.

(** The two trailer bytes are the high and the low half of the CRC. *)
Lemma crc_high_byte (crc : Z) :
  is_u16 crc -> u8 (Z.land (Z.shiftr crc 8) 0xFF) = Z.shiftr crc 8.
Proof.
  intros H. rewrite (land_255_small _ (shiftr_8_range _ H)).
  apply u8_small. now apply shiftr_8_range.
Qed.

Lemma crc_low_byte (crc : Z) : u8 (Z.land crc 0xFF) = Z.land crc 0xFF.
Proof. apply u8_small. apply land_255_range. Qed.

(** What the receiver assembles from the two trailer bytes. *)
Lemma crc_reassembled (crc : Z) :
  is_u16 crc ->
  u16 (Z.lor (Z.shiftl (u16 (Z.shiftr crc 8)) 8) (Z.land crc 0xFF)) = crc.
Proof.
  intros H.
  assert (Hh : is_u16 (Z.shiftr crc 8)).
  { pose proof (shiftr_8_range _ H) as Hh. unfold is_u8, is_u16 in *. lia. }
  rewrite (u16_small _ Hh).
  apply Z.bits_inj'. intros i Hi.
  rewrite u16_bits, Z.lor_spec, Z.shiftl_spec, Z.land_spec by lia.
  change 0xFF with (Z.ones 8). rewrite Z.testbit_ones_nonneg by lia.
  destruct (Z.ltb_spec i 16) as [H16|H16].
  - destruct (Z.ltb_spec i 8).
    + rewrite (Z.testbit_neg_r _ (i - 8)) by lia.
      cbn [andb orb]. now rewrite andb_true_r.
    + rewrite Z.shiftr_spec by lia. replace (i - 8 + 8) with i by lia.
      cbn [andb]. now rewrite andb_false_r, orb_false_r.
  - cbn [andb]. symmetry. apply (bits_above crc 16); [exact H|lia|lia].
Qed.

(** X4: a payload followed by the two trailer bytes the sender computes
    for it has CRC 0. *)
Theorem calculateCRC16_residue (data : list Z) :
  Forall is_u8 data ->
  calculateCRC16 (data ++ trailer_of true data) = 0.
Proof.
  intros Hdata. unfold trailer_of.
  pose proof (calculateCRC16_range data) as Hcrc.
  rewrite (crc_high_byte _ Hcrc), crc_low_byte.
  unfold calculateCRC16 at 1. rewrite fold_left_app.
  change (fold_left crc16_step data 0) with (calculateCRC16 data).
  set (crc := calculateCRC16 data) in *. cbn [fold_left].
  assert (E1 : crc16_step crc (Z.shiftr crc 8)
               = Z.shiftl (Z.land crc 0xFF) 8).
  { rewrite (crc16_step_ccitt _ _ Hcrc (shiftr_8_range _ Hcrc)).
    unfold ccitt_byte. rewrite crc_register_split, Z.lxor_nilpotent.
    rewrite Z.shiftl_0_l, Z.lxor_0_l.
    apply ccitt_shift8_low. apply land_255_range. }
  rewrite E1.
  assert (Hr : is_u16 (Z.shiftl (Z.land crc 0xFF) 8))
    by (rewrite <- E1; apply u16_range).
  rewrite (crc16_step_ccitt _ _ Hr (land_255_range crc)).
  unfold ccitt_byte. rewrite Z.lxor_nilpotent. reflexivity.
Qed.

Lemma calculateCRC16_residue_witness :
  calculateCRC16 (block_ff ++ trailer_of true block_ff) = 0.
Proof.
  apply calculateCRC16_residue. apply Forall_forall. intros x Hx.
  apply repeat_spec in Hx. subst x. unfold is_u8. lia.
Defined.

(** X5: with initial value 0 the CRC does not see leading zero bytes. *)
Theorem calculateCRC16_leading_zeros (n : nat) (data : list Z) :
  calculateCRC16 (repeat 0 n ++ data) = calculateCRC16 data.
Proof.
  unfold calculateCRC16. rewrite fold_left_app. f_equal.
  induction n as [|n IH]; cbn [repeat fold_left]; [reflexivity|].
  change (crc16_step 0 0) with 0. exact IH.
Qed.

(** One bit of polynomial division loses nothing of a 16-bit register. *)
Lemma ccitt_shift_range (r : Z) : is_u16 (ccitt_shift r).
Proof.
  apply (bits_bound _ 16); [lia|]. intros i Hi.
  rewrite ccitt_shift_poly, Z.lxor_spec, u16_bits.
  destruct (Z.ltb_spec i 16); [lia|]. cbn [andb].
  destruct (Z.testbit r 15).
  - rewrite (bits_above 0x1021 16 i); [reflexivity|lia|lia|lia].
  - now rewrite Z.bits_0.
Qed.

Lemma ccitt_shift_kernel (d : Z) :
  is_u16 d -> ccitt_shift d = 0 -> d = 0.
Proof.
  intros Hd H0.
  assert (Hbits : forall i, 0 <= i -> Z.testbit (ccitt_shift d) i = false)
    by (intros i _; rewrite H0; apply Z.bits_0).
  assert (H15 : Z.testbit d 15 = false).
  { destruct (Z.testbit d 15) eqn:E; [|reflexivity].
    specialize (Hbits 0 ltac:(lia)).
    rewrite ccitt_shift_poly, E, Z.lxor_spec, u16_bits,
      Z.shiftl_spec in Hbits by lia.
    rewrite (Z.testbit_neg_r d (0 - 1)) in Hbits by lia.
    discriminate Hbits. }
  apply Z.bits_inj'. intros i Hi. rewrite Z.bits_0.
  destruct (Z.ltb_spec i 15) as [Hlt|Hge].
  - specialize (Hbits (i + 1) ltac:(lia)).
    rewrite ccitt_shift_poly, H15, Z.lxor_0_r, u16_bits,
      Z.shiftl_spec in Hbits by lia.
    replace (i + 1 - 1) with i in Hbits by lia.
    destruct (Z.ltb_spec (i + 1) 16); [exact Hbits | lia].
  - destruct (Z.eq_dec i 15) as [->|Hne]; [exact H15|].
    apply (bits_above d 16); [exact Hd|lia|lia].
Qed.

Lemma lxor_u16 (a b : Z) : is_u16 a -> is_u16 b -> is_u16 (Z.lxor a b).
Proof.
  intros Ha Hb. apply (bits_bound _ 16); [lia|]. intros i Hi.
  rewrite Z.lxor_spec, (bits_above a 16 i), (bits_above b 16 i);
    [reflexivity | exact Hb | lia | lia | exact Ha | lia | lia].
Qed.

Lemma ccitt_shift_injective (a b : Z) :
  is_u16 a -> is_u16 b -> ccitt_shift a = ccitt_shift b -> a = b.
Proof.
  intros Ha Hb H. apply Z.lxor_eq.
  apply ccitt_shift_kernel; [now apply lxor_u16|].
  now rewrite ccitt_shift_lxor, H, Z.lxor_nilpotent.
Qed.

Lemma ccitt_shift8_injective (a b : Z) :
  is_u16 a -> is_u16 b -> ccitt_shift8 a = ccitt_shift8 b -> a = b.
Proof.
  unfold ccitt_shift8. intros Ha Hb H.
  repeat (apply ccitt_shift_injective in H;
          [|try assumption; apply ccitt_shift_range
            |try assumption; apply ccitt_shift_range]).
  exact H.
Qed.

Lemma shiftl_8_range (b : Z) : is_u8 b -> is_u16 (Z.shiftl b 8).
Proof.
  intros H. apply (bits_bound _ 16); [lia|]. intros i Hi.
  rewrite Z.shiftl_spec by lia.
  apply (bits_above b 8); [exact H|lia|lia].
Qed.

(** A step of the table-driven loop is injective in the register and in
    the byte. *)
Lemma crc16_step_injective (r1 r2 b1 b2 : Z) :
  is_u16 r1 -> is_u16 r2 -> is_u8 b1 -> is_u8 b2 ->
  crc16_step r1 b1 = crc16_step r2 b2 ->
  Z.lxor r1 (Z.shiftl b1 8) = Z.lxor r2 (Z.shiftl b2 8).
Proof.
  intros Hr1 Hr2 Hb1 Hb2 H.
  rewrite !crc16_step_ccitt in H by assumption. unfold ccitt_byte in H.
  apply ccitt_shift8_injective in H;
    [exact H | | ]; apply lxor_u16; auto using shiftl_8_range.
Qed.

Lemma calculateCRC16_from_injective (q : list Z) :
  Forall is_u8 q ->
  forall r1 r2, is_u16 r1 -> is_u16 r2 ->
  fold_left crc16_step q r1 = fold_left crc16_step q r2 -> r1 = r2.
Proof.
  induction 1 as [|b q Hb _ IH]; intros r1 r2 H1 H2 H; cbn [fold_left] in H.
  - exact H.
  - apply IH in H; try apply u16_range.
    apply crc16_step_injective in H; try assumption.
    apply (f_equal (fun z => Z.lxor z (Z.shiftl b 8))) in H.
    now rewrite !Z.lxor_assoc, !Z.lxor_nilpotent, !Z.lxor_0_r in H.
Qed.

(** X6: the CRC tells apart two payloads that differ in exactly one
    byte. *)
Theorem calculateCRC16_detects_one_byte (p q : list Z) (x y : Z) :
  Forall is_u8 p -> Forall is_u8 q -> is_u8 x -> is_u8 y -> x <> y ->
  calculateCRC16 (p ++ x :: q) <> calculateCRC16 (p ++ y :: q).
Proof.
  intros Hp Hq Hx Hy Hxy H. unfold calculateCRC16 in H.
  rewrite !fold_left_app in H. cbn [fold_left] in H.
  set (r := fold_left crc16_step p 0) in H.
  assert (Hr : is_u16 r)
    by (apply calculateCRC16_range_from; unfold is_u16; lia).
  apply calculateCRC16_from_injective in H;
    [|exact Hq | apply u16_range | apply u16_range].
  apply crc16_step_injective in H; try assumption.
  apply (f_equal (Z.lxor r)) in H.
  rewrite <- !Z.lxor_assoc, !Z.lxor_nilpotent, !Z.lxor_0_l in H.
  apply Hxy. apply (f_equal (fun z => Z.shiftr z 8)) in H.
  now rewrite !Z.shiftr_shiftl_l, !Z.sub_diag, !Z.shiftl_0_r in H by lia.
Qed.

Lemma calculateCRC16_detects_one_byte_witness :
  calculateCRC16 ([1; 2] ++ 3 :: [4]) <> calculateCRC16 ([1; 2] ++ 7 :: [4]).
Proof.
  apply calculateCRC16_detects_one_byte;
    repeat constructor; unfold is_u8; lia.
Defined.

(** ** The sender on answers other than NAK *)

Lemma retry_answer_cases (o : ReadOutcome) :
  retry_answer o = true ->
  o = ReadFailed \/ o = ReadOk []
  \/ exists b more, o = ReadOk (b :: more)
                    /\ (b =? ACK) = false /\ (b =? CAN) = false.
Proof.
  destruct o as [|[|b more]]; auto. unfold retry_answer, first_byte.
  intros H. apply andb_true_iff in H. destruct H as [H1 H2].
  apply negb_true_iff in H1, H2. right. right. now exists b, more.
Qed.

Lemma not_ACK_cases (o : ReadOutcome) :
  not_ACK o = true ->
  o = ReadFailed \/ o = ReadOk []
  \/ exists b more, o = ReadOk (b :: more) /\ (b =? ACK) = false.
Proof.
  destruct o as [|[|b more]]; auto. unfold not_ACK, first_byte.
  intros H. apply negb_true_iff in H. right. right. now exists b, more.
Qed.

Lemma not_mode_cases (o : ReadOutcome) :
  not_mode o = true ->
  o = ReadFailed \/ o = ReadOk []
  \/ exists b more, o = ReadOk (b :: more)
                    /\ (b =? NAK) = false /\ (b =? C) = false.
Proof.
  destruct o as [|[|b more]]; auto. unfold not_mode, first_byte.
  intros H. apply andb_true_iff in H. destruct H as [H1 H2].
  apply negb_true_iff in H1, H2. right. right. now exists b, more.
Qed.

Lemma sendBlock_step_retry left useCRC b buffer o rest t c :
  retry_answer o = true ->
  sendBlock (S left) useCRC b buffer (mkWorld (o :: rest) t c)
  = sendBlock left useCRC b buffer
      (mkWorld rest (t ++ [packet useCRC b buffer]) c).
Proof.
  intros Ho. cbn [sendBlock].
  unfold bind at 1. unfold writeAll at 1, WriteFile at 1. cbn [rx tx clock].
  destruct (retry_answer_cases o Ho) as [-> | [-> | (x & m & -> & H1 & H2)]];
    try reflexivity.
  rewrite (bind_run _ _ _ _ _ (readByte_got _ _ _ _ _ _)).
  cbn [Z.gtb Z.compare]. rewrite H1, H2.
  destruct (x =? NAK); reflexivity.
Qed.

Lemma sendBlock_all_retries useCRC b buffer :
  forall (outs : list ReadOutcome) rest t c,
  Forall (fun o => retry_answer o = true) outs ->
  sendBlock (length outs) useCRC b buffer (mkWorld (outs ++ rest) t c)
  = (BlockNotAcked,
     mkWorld rest (t ++ repeat (packet useCRC b buffer) (length outs)) c).
Proof.
  induction outs as [|o outs IH]; intros rest t c H.
  - cbn. now rewrite app_nil_r.
  - inversion H as [|? ? Ho Houts]; subst. cbn [length app].
    rewrite (sendBlock_step_retry _ _ _ _ _ _ _ _ Ho), (IH _ _ _ Houts).
    cbn [repeat]. now rewrite <- app_assoc.
Qed.

Lemma sendBlock_cancelled left useCRC b buffer more rest t c :
  sendBlock (S left) useCRC b buffer (mkWorld (ReadOk (CAN :: more) :: rest) t c)
  = (BlockCancelled, mkWorld rest (t ++ [packet useCRC b buffer]) c).
Proof. reflexivity. Qed.

Lemma sendEOT_step left o rest t c :
  not_ACK o = true ->
  sendEOT (S left) (mkWorld (o :: rest) t c)
  = sendEOT left (mkWorld rest (t ++ [[EOT]]) c).
Proof.
  intros Ho. cbn [sendEOT].
  rewrite (bind_run _ _ _ _ _ (writeByte_run _ _ _ _)).
  destruct (not_ACK_cases o Ho) as [-> | [-> | (x & m & -> & H1)]];
    try reflexivity.
  rewrite (bind_run _ _ _ _ _ (readByte_got _ _ _ _ _ _)).
  cbn [Z.gtb Z.compare]. now rewrite H1.
Qed.

Lemma sendEOT_never_acked :
  forall (outs : list ReadOutcome) rest t c,
  Forall (fun o => not_ACK o = true) outs ->
  sendEOT (length outs) (mkWorld (outs ++ rest) t c)
  = (false, mkWorld rest (t ++ repeat [EOT] (length outs)) c).
Proof.
  induction outs as [|o outs IH]; intros rest t c H.
  - cbn. now rewrite app_nil_r.
  - inversion H as [|? ? Ho Houts]; subst. cbn [length app].
    rewrite (sendEOT_step _ _ _ _ _ Ho), (IH _ _ _ Houts).
    cbn [repeat]. now rewrite <- app_assoc.
Qed.

(** *** Blocks of a file *)

Lemma BLOCK_SIZE_pos : (0 < BLOCK_SIZE)%nat.
Proof. rewrite BLOCK_SIZE_eq. lia. Qed.

Lemma blocks_of_lt (src : list Z) (k : nat) :
  (k < blocks_of src)%nat <-> (k * BLOCK_SIZE < length src)%nat.
Proof.
  unfold blocks_of. pose proof BLOCK_SIZE_pos as Hpos. split; intros H.
  - destruct (Nat.lt_ge_cases (k * BLOCK_SIZE) (length src)) as [|Hge];
      [assumption|]. exfalso.
    assert ((length src + (BLOCK_SIZE - 1)) / BLOCK_SIZE < S k)%nat; [|lia].
    apply Nat.Div0.div_lt_upper_bound. nia.
  - apply (Nat.div_le_lower_bound _ _ (S k)); [lia|]. nia.
Qed.

Lemma file_block_at (src : list Z) (k : nat) :
  firstn BLOCK_SIZE (skipn (k * BLOCK_SIZE) src)
  ++ repeat 0x1A
       (BLOCK_SIZE - length (firstn BLOCK_SIZE (skipn (k * BLOCK_SIZE) src)))
  = file_block src k.
Proof. reflexivity. Qed.

Lemma block_number_succ (bn : Z) (k : nat) :
  u8 (u8 (bn + Z.of_nat k) + 1) = u8 (bn + Z.of_nat (S k)).
Proof.
  unfold u8. rewrite Zplus_mod_idemp_l. f_equal. lia.
Qed.

(** The state of [sendBlocks] at block [k] of the file. *)
Lemma sendBlocks_at useCRC (src : list Z) (bn : Z) (k fuel : nat) w :
  (k < blocks_of src)%nat ->
  sendBlocks (S fuel) useCRC (skipn (k * BLOCK_SIZE) src)
    (u8 (bn + Z.of_nat k)) w
  = (res <- sendBlock MAX_RETRIES useCRC (u8 (bn + Z.of_nat k))
              (file_block src k) ;;
     match res with
     | BlockAcked =>
         sendBlocks fuel useCRC (skipn (S k * BLOCK_SIZE) src)
           (u8 (bn + Z.of_nat (S k)))
     | BlockCancelled => ret (Returned false)
     | BlockNotAcked => ret (Returned false)
     end) w.
Proof.
  intros Hk. apply blocks_of_lt in Hk. cbn [sendBlocks].
  assert (Hne : (length (firstn BLOCK_SIZE (skipn (k * BLOCK_SIZE) src)) =? 0)%nat
                = false).
  { apply Nat.eqb_neq. rewrite length_firstn, length_skipn.
    pose proof BLOCK_SIZE_pos. lia. }
  rewrite Hne, file_block_at, block_number_succ.
  replace (skipn BLOCK_SIZE (skipn (k * BLOCK_SIZE) src))
    with (skipn (S k * BLOCK_SIZE) src)
    by (rewrite skipn_skipn; f_equal; cbn [Nat.mul]; lia).
  reflexivity.
Qed.

Lemma sendBlocks_at_end useCRC (src : list Z) (bn : Z) (fuel : nat) w :
  sendBlocks (S fuel) useCRC (skipn (blocks_of src * BLOCK_SIZE) src) bn w
  = (eotAcked <- sendEOT MAX_RETRIES ;; ret (Returned eotAcked)) w.
Proof.
  assert (H : ~ (blocks_of src < blocks_of src)%nat) by lia.
  rewrite blocks_of_lt in H.
  rewrite skipn_all2 by lia. reflexivity.
Qed.

Lemma frames_from_succ useCRC src bn k :
  frames_from useCRC src bn (S k)
  = frames_from useCRC src bn k
    ++ [packet useCRC (u8 (bn + Z.of_nat k)) (file_block src k)].
Proof.
  unfold frames_from. rewrite seq_S, map_app. reflexivity.
Qed.

(** After [k] acknowledgements [sendBlocks] has written the first [k]
    frames and stands at block [k]. *)
Lemma sendBlocks_acked useCRC (src : list Z) (bn : Z) :
  forall (k fuel : nat) rest t c,
  (k <= blocks_of src)%nat ->
  sendBlocks (k + fuel) useCRC src (u8 bn)
    (mkWorld (repeat (ReadOk [ACK]) k ++ rest) t c)
  = sendBlocks fuel useCRC (skipn (k * BLOCK_SIZE) src)
      (u8 (bn + Z.of_nat k))
      (mkWorld rest (t ++ frames_from useCRC src bn k) c).
Proof.
  induction k as [|k IH]; intros fuel rest t c Hk.
  - cbn [repeat app Nat.add Nat.mul skipn frames_from seq map Z.of_nat].
    now rewrite app_nil_r, Z.add_0_r.
  - replace (S k + fuel)%nat with (k + S fuel)%nat by lia.
    replace (repeat (ReadOk [ACK]) (S k) ++ rest)
      with (repeat (ReadOk [ACK]) k ++ ReadOk [ACK] :: rest)
      by (cbn [repeat]; rewrite repeat_cons, <- app_assoc; reflexivity).
    rewrite IH by lia. rewrite sendBlocks_at by lia.
    change MAX_RETRIES with (S 9) at 1.
    rewrite (bind_run _ _ _ _ _ (sendBlock_acked _ _ _ _ _ _ _)).
    now rewrite frames_from_succ, <- app_assoc.
Qed.

Lemma awaitInitiation_mode (fuel retries : nat) m more rest t c :
  (retries < MAX_RETRIES)%nat ->
  awaitInitiation (S fuel) retries
    (mkWorld (ReadOk (mode_byte m :: more) :: rest) t c)
  = (Initiated m, mkWorld rest t c).
Proof.
  intros H. cbn [awaitInitiation].
  rewrite (proj2 (Nat.ltb_lt _ _) H).
  rewrite (bind_run _ _ _ _ _ (readByte_got _ _ _ _ _ _)).
  destruct m; reflexivity.
Qed.

Lemma sendFile_first_answer (fuel : nat) src m more rest t c :
  sendFile (S fuel) (Some src)
    (mkWorld (ReadOk (mode_byte m :: more) :: rest) t c)
  = sendBlocks (S fuel) m src 1 (mkWorld rest t c).
Proof.
  unfold sendFile.
  rewrite (bind_run _ _ _ _ _
             (awaitInitiation_mode fuel 0 m more rest t c ltac:(cbv; lia))).
  reflexivity.
Qed.

(** X7: on a peer that announces a mode, acknowledges every block and
    acknowledges EOT, [sendFile] writes the frames of all blocks of the file
    in order, numbered from 1 as an 8-bit counter, each once, then one EOT,
    and returns true.  An empty file gives the EOT alone. *)
Theorem sendFile_succeeds (useCRC : bool) (src : list Z) (fuel : nat)
    (rest : list ReadOutcome) (t : list (list Z)) (c : list Z) :
  sendFile (blocks_of src + S fuel) (Some src)
    (mkWorld
       (answers_of ([mode_byte useCRC] :: repeat [ACK] (blocks_of src)
                    ++ [[ACK]]) ++ rest) t c)
  = (Returned true,
     mkWorld rest (t ++ sender_frames useCRC src ++ [[EOT]]) c).
Proof.
  unfold answers_of. cbn [map app]. rewrite map_app, map_repeat.
  cbn [map]. rewrite <- app_assoc. cbn [app].
  replace (blocks_of src + S fuel)%nat with (S (blocks_of src + fuel))
    by lia.
  rewrite sendFile_first_answer.
  replace (S (blocks_of src + fuel)) with (blocks_of src + S fuel)%nat
    by lia.
  change 1 with (u8 1) at 1.
  rewrite sendBlocks_acked by lia. rewrite sendBlocks_at_end.
  change MAX_RETRIES with (S 9).
  unfold bind. cbn. now rewrite <- app_assoc.
Qed.

(** X8: a CAN in answer to a frame ends [sendFile] with false at once: the
    frame was written once and nothing more is read or written. *)
Theorem sendFile_cancelled (useCRC : bool) (src : list Z) (k fuel : nat)
    (more : list Z) (rest : list ReadOutcome) (t : list (list Z))
    (c : list Z) :
  (k < blocks_of src)%nat ->
  sendFile (k + S fuel) (Some src)
    (mkWorld (ReadOk [mode_byte useCRC] :: repeat (ReadOk [ACK]) k
              ++ ReadOk (CAN :: more) :: rest) t c)
  = (Returned false,
     mkWorld rest (t ++ frames_from useCRC src 1 (S k)) c).
Proof.
  intros Hk.
  replace (k + S fuel)%nat with (S (k + fuel)) by lia.
  rewrite sendFile_first_answer.
  replace (S (k + fuel)) with (k + S fuel)%nat by lia.
  change 1 with (u8 1) at 1.
  rewrite sendBlocks_acked by lia. rewrite sendBlocks_at by exact Hk.
  change MAX_RETRIES with (S 9).
  rewrite (bind_run _ _ _ _ _ (sendBlock_cancelled _ _ _ _ _ _ _ _)).
  now rewrite frames_from_succ, <- app_assoc.
Qed.

(** X9: every answer to a frame other than ACK and CAN — NAK, a timeout,
    a failed read, any other byte — uses up one of the [MAX_RETRIES]
    attempts: after ten of them the frame was written ten times and
    [sendFile] returns false. *)
Theorem sendFile_counts_every_retry (useCRC : bool) (src : list Z)
    (k fuel : nat) (outs rest : list ReadOutcome) (t : list (list Z))
    (c : list Z) :
  (k < blocks_of src)%nat ->
  Forall (fun o => retry_answer o = true) outs ->
  length outs = MAX_RETRIES ->
  sendFile (k + S fuel) (Some src)
    (mkWorld (ReadOk [mode_byte useCRC] :: repeat (ReadOk [ACK]) k
              ++ outs ++ rest) t c)
  = (Returned false,
     mkWorld rest
       (t ++ frames_from useCRC src 1 k
          ++ repeat (packet useCRC (block_number k) (file_block src k))
               MAX_RETRIES) c).
Proof.
  intros Hk Houts Hlen.
  replace (k + S fuel)%nat with (S (k + fuel)) by lia.
  rewrite sendFile_first_answer.
  replace (S (k + fuel)) with (k + S fuel)%nat by lia.
  change 1 with (u8 1) at 1.
  rewrite sendBlocks_acked by lia. rewrite sendBlocks_at by exact Hk.
  rewrite <- Hlen.
  rewrite (bind_run _ _ _ _ _ (sendBlock_all_retries _ _ _ _ _ _ _ Houts)).
  now rewrite <- app_assoc.
Qed.

(** X10: when every block was acknowledged but EOT is not — ten answers
    other than ACK, CAN included — [sendFile] has written EOT exactly ten
    times and returns false. *)
Theorem sendFile_EOT_unacknowledged (useCRC : bool) (src : list Z)
    (fuel : nat) (outs rest : list ReadOutcome) (t : list (list Z))
    (c : list Z) :
  Forall (fun o => not_ACK o = true) outs ->
  length outs = MAX_RETRIES ->
  sendFile (blocks_of src + S fuel) (Some src)
    (mkWorld (ReadOk [mode_byte useCRC]
              :: repeat (ReadOk [ACK]) (blocks_of src) ++ outs ++ rest) t c)
  = (Returned false,
     mkWorld rest
       (t ++ sender_frames useCRC src ++ repeat [EOT] MAX_RETRIES) c).
Proof.
  intros Houts Hlen.
  replace (blocks_of src + S fuel)%nat with (S (blocks_of src + fuel))
    by lia.
  rewrite sendFile_first_answer.
  replace (S (blocks_of src + fuel)) with (blocks_of src + S fuel)%nat
    by lia.
  change 1 with (u8 1) at 1.
  rewrite sendBlocks_acked by lia. rewrite sendBlocks_at_end.
  rewrite <- Hlen.
  rewrite (bind_run _ _ _ _ _ (sendEOT_never_acked _ _ _ _ Houts)).
  cbn [ret]. now rewrite <- app_assoc.
Qed.

(** *** The wait for the receiver's first byte *)

Lemma awaitInitiation_skips m more rest t c :
  forall (pre : list ReadOutcome) (retries fuel : nat),
  Forall (fun o => not_mode o = true) pre ->
  (length (filter no_byte pre) + retries < MAX_RETRIES)%nat ->
  awaitInitiation (length pre + S fuel) retries
    (mkWorld (pre ++ ReadOk (mode_byte m :: more) :: rest) t c)
  = (Initiated m, mkWorld rest t c).
Proof.
  induction pre as [|o pre IH]; intros retries fuel Hpre Hcount.
  - cbn [length Nat.add app]. apply awaitInitiation_mode.
    cbn [filter length] in Hcount. lia.
  - inversion Hpre as [|? ? Ho Hrest]; subst.
    cbn [length Nat.add app awaitInitiation].
    assert (Hlt : (retries <? MAX_RETRIES)%nat = true)
      by (apply Nat.ltb_lt; lia).
    rewrite Hlt.
    destruct (not_mode_cases o Ho) as [-> | [-> | (b & x & -> & H1 & H2)]].
    + cbn [filter no_byte first_byte length] in Hcount.
      unfold bind, readByteWithTimeout, readWithTimeout, bind, ReadFile.
      cbn. apply IH; [exact Hrest | lia].
    + cbn [filter no_byte first_byte length] in Hcount.
      unfold bind, readByteWithTimeout, readWithTimeout, bind, ReadFile.
      cbn. apply IH; [exact Hrest | lia].
    + cbn [filter no_byte first_byte] in Hcount.
      rewrite (bind_run _ _ _ _ _ (readByte_got _ _ _ _ _ _)).
      cbn [Z.gtb Z.compare]. rewrite H1, H2.
      apply IH; [exact Hrest | exact Hcount].
Qed.

(** X11: while it waits for the receiver, [sendFile] skips every byte
    other than NAK and C without counting it, and counts timeouts and
    failed reads; as long as fewer than [MAX_RETRIES] of those occurred, the
    first NAK or C starts the transfer in that mode with block 1. *)
Theorem sendFile_skips_other_bytes (m : bool) (src : list Z) (fuel : nat)
    (pre : list ReadOutcome) (more : list Z) (rest : list ReadOutcome)
    (t : list (list Z)) (c : list Z) :
  Forall (fun o => not_mode o = true) pre ->
  (length (filter no_byte pre) < MAX_RETRIES)%nat ->
  sendFile (length pre + S fuel) (Some src)
    (mkWorld (pre ++ ReadOk (mode_byte m :: more) :: rest) t c)
  = sendBlocks (length pre + S fuel) m src 1 (mkWorld rest t c).
Proof.
  intros Hpre Hcount. unfold sendFile.
  rewrite (bind_run _ _ _ _ _
             (awaitInitiation_skips m more rest t c pre 0 fuel Hpre
                ltac:(lia))).
  reflexivity.
Qed.

Lemma awaitInitiation_gives_up :
  forall (fuel retries : nat) (w : World),
  Forall (fun o => not_mode o = true) (rx w) ->
  (length (rx w) + (MAX_RETRIES - retries) <= fuel)%nat ->
  fst (awaitInitiation fuel retries w) = NotInitiated
  /\ tx (snd (awaitInitiation fuel retries w)) = tx w.
Proof.
  induction fuel as [|fuel IH]; intros retries w Hrx Hfuel;
    cbn [awaitInitiation];
    destruct (Nat.ltb_spec retries MAX_RETRIES) as [Hlt|Hge];
    try (split; reflexivity); [lia|].
  unfold bind.
  destruct (readByteWithTimeout 0 w) as [[r b] w1] eqn:E.
  apply readByteWithTimeout_run in E.
  destruct E as (Ht & _ & Hr & Hcase).
  assert (Hrx1 : Forall (fun o => not_mode o = true) (rx w1))
    by (rewrite Hr; now apply Forall_tl).
  assert (Hlen : (length (rx w1) <= length (rx w))%nat)
    by (rewrite Hr; destruct (rx w); cbn; lia).
  destruct Hcase as [[Hle _] | (-> & o & Hhd & Hb)].
  - destruct (Z.gtb_spec r 0) as [|_]; [lia|].
    rewrite <- Ht. apply IH; [exact Hrx1 | lia].
  - cbn [Z.gtb Z.compare].
    destruct (rx w) as [|o' l] eqn:Erx; [discriminate|].
    cbn in Hhd. inversion Hhd; subst o'.
    inversion Hrx as [|? ? Ho _]; subst.
    unfold not_mode in Ho. rewrite Hb in Ho.
    apply andb_true_iff in Ho. destruct Ho as [H1 H2].
    apply negb_true_iff in H1, H2. rewrite H1, H2.
    rewrite <- Ht. apply IH; [exact Hrx1|].
    rewrite Hr. cbn [tl length] in *. lia.
Qed.

(** X12: when the peer never sends NAK or C — any bytes, failures and
    timeouts, then silence — [sendFile] returns false and has written
    nothing. *)
Theorem sendFile_not_initiated (src : list Z) (fuel : nat) (w : World) :
  Forall (fun o => not_mode o = true) (rx w) ->
  (length (rx w) + MAX_RETRIES <= fuel)%nat ->
  fst (sendFile fuel (Some src) w) = Returned false
  /\ tx (snd (sendFile fuel (Some src) w)) = tx w.
Proof.
  intros Hrx Hfuel. unfold sendFile, bind.
  destruct (awaitInitiation_gives_up fuel 0 w Hrx ltac:(lia)) as [H1 H2].
  destruct (awaitInitiation fuel 0 w) as [i w1]. cbn [fst snd] in *.
  subst i. cbn. split; [reflexivity | exact H2].
Qed.

(** *** Termination of the sender *)

Lemma awaitInitiation_returns :
  forall (fuel retries : nat) (w : World),
  (length (rx w) + (MAX_RETRIES - retries) <= fuel)%nat ->
  fst (awaitInitiation fuel retries w) <> InitiationPending.
Proof.
  induction fuel as [|fuel IH]; intros retries w Hfuel;
    cbn [awaitInitiation];
    destruct (Nat.ltb_spec retries MAX_RETRIES) as [Hlt|Hge];
    try discriminate; [lia|].
  unfold bind.
  destruct (readByteWithTimeout 0 w) as [[r b] w1] eqn:E.
  apply readByteWithTimeout_run in E.
  destruct E as (_ & _ & Hr & Hcase).
  assert (Hlen : (length (rx w1) <= length (rx w))%nat)
    by (rewrite Hr; destruct (rx w); cbn; lia).
  destruct Hcase as [[Hle _] | (-> & o & Hhd & _)].
  - destruct (Z.gtb_spec r 0) as [|_]; [lia|]. apply IH. lia.
  - cbn [Z.gtb Z.compare].
    destruct (b =? NAK); [discriminate|].
    destruct (b =? C); [discriminate|].
    apply IH. rewrite Hr.
    destruct (rx w) as [|o' l]; [discriminate|]. cbn [tl length] in *. lia.
Qed.

Lemma sendBlocks_returns useCRC :
  forall (fuel : nat) (src : list Z) (bn : Z) (w : World),
  (length src < fuel)%nat ->
  fst (sendBlocks fuel useCRC src bn w) <> Running.
Proof.
  induction fuel as [|fuel IH]; intros src bn w Hfuel; [lia|].
  cbn [sendBlocks].
  destruct (Nat.eqb_spec (length (firstn BLOCK_SIZE src)) 0) as [_|Hne].
  - unfold bind. destruct (sendEOT MAX_RETRIES w). discriminate.
  - unfold bind.
    destruct (sendBlock MAX_RETRIES useCRC bn
                (firstn BLOCK_SIZE src
                 ++ repeat 26 (BLOCK_SIZE - length (firstn BLOCK_SIZE src))) w)
      as [[| |] w1]; try discriminate.
    apply IH. rewrite length_skipn. rewrite length_firstn in Hne.
    pose proof BLOCK_SIZE_pos. lia.
Qed.

(** X13: [sendFile] always terminates on a peer that eventually falls
    silent: a number of loop iterations bounded by the answers still to
    come, the retry budget and the length of the file is enough for it to
    return. *)
Theorem sendFile_terminates (input : option (list Z)) (fuel : nat)
    (w : World) :
  (length (rx w) + MAX_RETRIES
   + match input with Some src => length src | None => 0 end < fuel)%nat ->
  exists result, fst (sendFile fuel input w) = Returned result.
Proof.
  intros Hfuel. destruct input as [src|]; [|now exists false].
  unfold sendFile, bind.
  pose proof (awaitInitiation_returns fuel 0 w ltac:(lia)) as Hinit.
  destruct (awaitInitiation fuel 0 w) as [[useCRC| |] w1];
    cbn [fst] in *; [| now exists false | now elim Hinit].
  pose proof (sendBlocks_returns useCRC fuel src 1 w1 ltac:(lia)) as Hb.
  destruct (sendBlocks fuel useCRC src 1 w1) as [[b|] w2]; cbn [fst] in *;
    [now exists b | now elim Hb].
Qed.

Lemma sendFile_terminates_witness :
  exists result,
    fst (sendFile 30 (Some [1; 2; 3])
           (hears [ReadOk [7]; ReadFailed; ReadOk [NAK]; ReadOk [NAK]]))
    = Returned result.
Proof.
  apply sendFile_terminates. cbn. lia.
Defined.

(** ** A frame of the sender in the hands of the receiver *)

Lemma file_block_length (src : list Z) (k : nat) :
  length (file_block src k) = BLOCK_SIZE.
Proof.
  unfold file_block. rewrite length_app, repeat_length.
  pose proof (firstn_le_length BLOCK_SIZE (skipn (k * BLOCK_SIZE) src)).
  lia.
Qed.

Lemma reads_of_packet useCRC bn buffer :
  length buffer = BLOCK_SIZE ->
  reads_of_write (packet useCRC bn buffer)
  = ReadOk [SOH] :: ReadOk [bn] :: ReadOk [u8 (255 - bn)] :: ReadOk buffer
    :: map (fun b => ReadOk [b]) (trailer_of useCRC buffer).
Proof.
  intros Hlen.
  assert (E1 : forall tr, firstn BLOCK_SIZE (buffer ++ tr) = buffer)
    by (intros tr; rewrite <- Hlen, firstn_app, Nat.sub_diag, firstn_all;
        cbn [firstn]; apply app_nil_r).
  assert (E2 : forall tr, skipn BLOCK_SIZE (buffer ++ tr) = tr)
    by (intros tr; rewrite <- Hlen, skipn_app, Nat.sub_diag, skipn_all;
        reflexivity).
  unfold packet, trailer_of, reads_of_write.
  destruct useCRC; cbn [app nth skipn Nat.add]; now rewrite E1, E2.
Qed.

Lemma readTrailer_of useCRC data rest t c :
  readTrailer useCRC data
    (mkWorld (map (fun b => ReadOk [b]) (trailer_of useCRC data) ++ rest) t c)
  = (Some true, mkWorld rest t c).
Proof.
  unfold readTrailer, trailer_of. destruct useCRC; cbn [map app].
  - pose proof (calculateCRC16_range data) as Hcrc.
    rewrite (crc_high_byte _ Hcrc), crc_low_byte.
    set (crc := calculateCRC16 data) in *.
    rewrite (bind_run _ _ _ _ _ (readByte_got _ _ _ _ _ _)).
    cbn [Z.leb Z.compare].
    rewrite (bind_run _ _ _ _ _ (readByte_got _ _ _ _ _ _)).
    cbn [Z.leb Z.compare].
    now rewrite (crc_reassembled _ Hcrc), Z.eqb_refl.
  - rewrite (bind_run _ _ _ _ _ (readByte_got _ _ _ _ _ _)).
    cbn [Z.leb Z.compare]. now rewrite Z.eqb_refl.
Qed.

Lemma receiveBlock_accepts useCRC s bn buffer rest t c :
  is_u8 bn -> length buffer = BLOCK_SIZE ->
  headerByte s = SOH -> expectedBlock s = bn ->
  receiveBlock useCRC s
    (mkWorld (ReadOk [bn] :: ReadOk [u8 (255 - bn)] :: ReadOk buffer
              :: map (fun b => ReadOk [b]) (trailer_of useCRC buffer) ++ rest)
       t c)
  = readNextHeader (accept_block s buffer) (mkWorld rest (t ++ [[ACK]]) c).
Proof.
  intros Hbn Hlen Hhdr Heb.
  assert (Hsum : bn + u8 (255 - bn) = 255).
  { unfold u8, is_u8 in *. rewrite Z.mod_small; lia. }
  rewrite (receiveBlock_validated useCRC s bn _ [] [] buffer _ t c
             (mkWorld rest t c) Hhdr Hsum Hlen (readTrailer_of _ _ _ _ _)).
  rewrite Heb.
  replace (bn =? bn - 1) with false by (symmetry; apply Z.eqb_neq; lia).
  cbn [andb]. rewrite Z.eqb_refl.
  now rewrite (bind_run _ _ _ _ _ (writeByte_run _ _ _ _)).
Qed.

(** X14: a frame built by the sender for block number [bn], read by a
    receiver that expects [bn], passes the complement and the check
    validation in either mode: its payload is appended, ACK is written and
    [expectedBlock] moves on. *)
Theorem frame_round_trip (useCRC : bool) (s : Receiver) (bn : Z)
    (buffer : list Z) (rest : list ReadOutcome) (t : list (list Z))
    (c : list Z) :
  is_u8 bn -> length buffer = BLOCK_SIZE ->
  headerByte s = SOH -> expectedBlock s = bn ->
  receiveBlock useCRC s
    (mkWorld (tl (reads_of_write (packet useCRC bn buffer))
              ++ ReadOk [SOH] :: rest) t c)
  = ({| file := ofstream_write (file s) buffer;
        expectedBlock := u8 (bn + 1);
        headerByte := SOH;
        receiving := receiving s |},
     mkWorld rest (t ++ [[ACK]]) c).
Proof.
  intros Hbn Hlen Hhdr Heb.
  rewrite (reads_of_packet _ _ _ Hlen). cbn [tl app].
  rewrite (receiveBlock_accepts useCRC s bn buffer _ t c Hbn Hlen Hhdr Heb).
  unfold readNextHeader.
  rewrite (bind_run _ _ _ _ _ (readByte_got _ _ _ _ _ _)).
  cbn [Z.leb Z.compare Z.eqb Pos.eqb SOH EOT negb].
  unfold ret, set_headerByte, accept_block. cbn [file expectedBlock headerByte receiving].
  now rewrite Heb.
Qed.

Lemma frame_round_trip_witness :
  receiveBlock true (initialReceiver (ofstream_open true))
    (mkWorld (tl (reads_of_write (packet true 1 block_a))
              ++ ReadOk [SOH] :: []) [[C]] [])
  = ({| file := {| fail := false; contents := block_a |};
        expectedBlock := 2; headerByte := SOH; receiving := true |},
     mkWorld [] [[C]; [ACK]] []).
Proof.
  apply (frame_round_trip true (initialReceiver (ofstream_open true)) 1
           block_a [] [[C]] []);
    [unfold is_u8; lia | reflexivity | reflexivity | reflexivity].
Defined.

(** ** A whole file over a clean channel *)

Lemma blocks_of_skip (src : list Z) :
  src <> [] -> blocks_of src = S (blocks_of (skipn BLOCK_SIZE src)).
Proof.
  intros Hne.
  assert (Hlen : (0 < length src)%nat)
    by (destruct src; [contradiction | cbn; lia]).
  assert (H0 : (0 < blocks_of src)%nat) by (apply blocks_of_lt; lia).
  assert (Hshift : forall k, (k < blocks_of (skipn BLOCK_SIZE src))%nat
                             <-> (S k < blocks_of src)%nat).
  { intros k. rewrite !blocks_of_lt, length_skipn. cbn [Nat.mul]. lia. }
  destruct (blocks_of (skipn BLOCK_SIZE src)) as [|b] eqn:E.
  - pose proof (proj2 (Hshift 0%nat)). lia.
  - pose proof (proj1 (Hshift b) ltac:(lia)).
    pose proof (proj2 (Hshift (S b))). lia.
Qed.

Lemma blocks_of_nil (src : list Z) : blocks_of src = 0%nat -> src = [].
Proof.
  intros H. destruct src as [|x src]; [reflexivity|]. exfalso.
  assert (0 < blocks_of (x :: src))%nat by (apply blocks_of_lt; cbn; lia).
  lia.
Qed.

(** The blocks of a file, one after the other, are the file followed by
    the padding of its last block. *)
Lemma file_blocks_concat :
  forall (n : nat) (src : list Z),
  blocks_of src = n ->
  concat (map (file_block src) (seq 0 n))
  = src ++ repeat 0x1A (n * BLOCK_SIZE - length src).
Proof.
  induction n as [|n IH]; intros src Hn.
  - apply blocks_of_nil in Hn. subst src. reflexivity.
  - assert (Hne : src <> []) by (intros ->; discriminate Hn).
    pose proof (blocks_of_skip src Hne) as Hskip.
    assert (Hn' : blocks_of (skipn BLOCK_SIZE src) = n) by lia.
    change (seq 0 (S n)) with (0%nat :: seq 1 n).
    rewrite <- seq_shift. cbn [map concat]. rewrite map_map.
    rewrite (map_ext (fun i => file_block src (S i))
                     (file_block (skipn BLOCK_SIZE src)))
      by (intros i; symmetry; apply file_block_skip).
    rewrite (IH _ Hn'). unfold file_block. cbn [Nat.mul skipn].
    rewrite length_skipn, length_firstn.
    destruct (Nat.le_gt_cases BLOCK_SIZE (length src)) as [Hle|Hgt].
    + rewrite Nat.min_l, Nat.sub_diag by lia. cbn [repeat].
      rewrite app_nil_r, app_assoc, firstn_skipn. f_equal; try f_equal; lia.
    + rewrite Nat.min_r by lia.
      rewrite firstn_all2, skipn_all2 by lia.
      assert (Hz : n = 0%nat).
      { rewrite skipn_all2 in Hn' by lia. now rewrite <- Hn'. }
      rewrite Hz. cbn [Nat.mul app].
      replace (0 - (length src - BLOCK_SIZE))%nat with 0%nat by lia.
      cbn [repeat]. rewrite app_nil_r. f_equal; try f_equal; lia.
Qed.

Lemma block_number_range (k : nat) : is_u8 (block_number k).
Proof. unfold block_number, u8, is_u8. apply Z.mod_pos_bound. lia. Qed.

Lemma block_number_next (k : nat) :
  u8 (block_number k + 1) = block_number (S k).
Proof.
  unfold block_number, u8. rewrite Zplus_mod_idemp_l. f_equal. lia.
Qed.

Lemma clean_stream_end useCRC src k :
  clean_stream useCRC src k 0 = [ReadOk [EOT]].
Proof. reflexivity. Qed.

Lemma clean_stream_frame useCRC src k m :
  clean_stream useCRC src k (S m)
  = ReadOk [SOH] :: ReadOk [block_number k]
    :: ReadOk [u8 (255 - block_number k)] :: ReadOk (file_block src k)
    :: map (fun b => ReadOk [b]) (trailer_of useCRC (file_block src k))
    ++ clean_stream useCRC src (S k) m.
Proof.
  unfold clean_stream. cbn [seq map app concat].
  now rewrite (reads_of_packet _ _ _ (file_block_length src k)).
Qed.

Lemma receiveLoop_step n useCRC s w :
  receiving s = true ->
  receiveLoop (S n) useCRC s w
  = receiveLoop n useCRC (fst (receiveBlock useCRC s w))
      (snd (receiveBlock useCRC s w)).
Proof.
  intros H. cbn [receiveLoop]. rewrite H. unfold bind.
  now destruct (receiveBlock useCRC s w).
Qed.

Lemma receiveLoop_stopped n useCRC s w :
  receiving s = false -> receiveLoop n useCRC s w = (s, w).
Proof.
  intros H. destruct n; cbn [receiveLoop]; [reflexivity | now rewrite H].
Qed.

Lemma receiveBlock_clean useCRC s bn buffer h rest t c :
  is_u8 bn -> length buffer = BLOCK_SIZE ->
  headerByte s = SOH -> expectedBlock s = bn ->
  receiveBlock useCRC s
    (mkWorld (ReadOk [bn] :: ReadOk [u8 (255 - bn)] :: ReadOk buffer
              :: map (fun b => ReadOk [b]) (trailer_of useCRC buffer)
              ++ ReadOk [h] :: rest) t c)
  = if h =? EOT
    then (stop_receiving (set_headerByte (accept_block s buffer) h),
          mkWorld rest (t ++ [[ACK]] ++ [[ACK]]) c)
    else if h =? SOH
    then (set_headerByte (accept_block s buffer) h,
          mkWorld rest (t ++ [[ACK]]) c)
    else (set_headerByte (accept_block s buffer) h,
          mkWorld rest (t ++ [[ACK]] ++ [[NAK]]) c).
Proof.
  intros Hbn Hlen Hhdr Heb.
  rewrite (receiveBlock_accepts useCRC s bn buffer _ t c Hbn Hlen Hhdr Heb).
  unfold readNextHeader.
  rewrite (bind_run _ _ _ _ _ (readByte_got _ _ _ _ _ _)).
  cbn [Z.leb Z.compare].
  destruct (h =? EOT); [|destruct (h =? SOH)]; cbn [negb];
    rewrite ?(bind_run _ _ _ _ _ (writeByte_run _ _ _ _));
    cbn [ret]; now rewrite <- ?app_assoc.
Qed.

(** The block-reception loop on the rest of a clean transfer, from the
    point where the header of block [k] was read. *)
Lemma receiveLoop_clean useCRC src :
  forall (m k fuel : nat) (s : Receiver) rest t c,
  headerByte s = SOH -> receiving s = true ->
  expectedBlock s = block_number k -> fail (file s) = false ->
  let run :=
    receiveLoop (S m + fuel) useCRC s
      (mkWorld (tl (clean_stream useCRC src k (S m)) ++ rest) t c) in
  receiving (fst run) = false
  /\ fail (file (fst run)) = false
  /\ contents (file (fst run))
     = contents (file s) ++ concat (map (file_block src) (seq k (S m)))
  /\ snd run = mkWorld rest (t ++ repeat [ACK] (S m) ++ [[ACK]]) c.
Proof.
  induction m as [|m IH]; intros k fuel s rest t c Hhdr Hrcv Heb Hfile run;
    subst run; rewrite clean_stream_frame; cbn [tl app];
    rewrite <- app_assoc;
    change (S ?x + fuel)%nat with (S (x + fuel));
    rewrite (receiveLoop_step _ _ _ _ Hrcv).
  - rewrite clean_stream_end. cbn [app].
    rewrite (receiveBlock_clean useCRC s (block_number k) (file_block src k)
               EOT rest t c (block_number_range k)
               (file_block_length src k) Hhdr Heb).
    cbn [Z.eqb EOT Pos.eqb fst snd].
    rewrite receiveLoop_stopped by reflexivity.
    cbn [fst snd stop_receiving set_headerByte accept_block file receiving
         seq map concat repeat app].
    unfold ofstream_write. rewrite Hfile. cbn [fail contents].
    rewrite app_nil_r. repeat split; reflexivity.
  - set (next := clean_stream useCRC src (S k) (S m)).
    assert (Hnext : next = ReadOk [SOH] :: tl next)
      by (subst next; rewrite clean_stream_frame; reflexivity).
    rewrite Hnext. cbn [app].
    rewrite (receiveBlock_clean useCRC s (block_number k) (file_block src k)
               SOH (tl next ++ rest) t c (block_number_range k)
               (file_block_length src k) Hhdr Heb).
    cbn [Z.eqb EOT SOH Pos.eqb fst snd].
    set (s1 := set_headerByte (accept_block s (file_block src k)) SOH).
    assert (Hfile1 : fail (file s1) = false)
      by (subst s1; cbn [set_headerByte accept_block file];
          unfold ofstream_write; now rewrite Hfile).
    assert (Heb1 : expectedBlock s1 = block_number (S k))
      by (subst s1; cbn [set_headerByte accept_block expectedBlock];
          rewrite Heb; apply block_number_next).
    destruct (IH (S k) fuel s1 rest (t ++ [[ACK]]) c eq_refl Hrcv Heb1
                Hfile1) as (H1 & H2 & H3 & H4).
    change (S m + fuel)%nat with (S (m + fuel)) in *.
    fold next in H1, H2, H3, H4.
    repeat split; [exact H1 | exact H2 | | ].
    + rewrite H3. subst s1.
      cbn [set_headerByte accept_block file]. unfold ofstream_write.
      rewrite Hfile. cbn [contents].
      change (seq k (S (S m))) with (k :: seq (S k) (S m)).
      cbn [map concat]. now rewrite <- app_assoc.
    + rewrite H4. cbn [repeat app]. now rewrite <- !app_assoc.
Qed.

Lemma startPhase_first_read impl useCRC h rx' t c :
  h = SOH \/ h = EOT ->
  startPhase impl useCRC (ofstream_open true)
    (mkWorld (ReadOk [h] :: rx') t c)
  = (if h =? SOH then StartSOH else StartEOT,
     mkWorld rx'
       (if h =? SOH then t ++ [[mode_byte useCRC]]
        else (t ++ [[mode_byte useCRC]]) ++ [[ACK]])
       (match impl with Procedural => c | Class => tl c end)).
Proof.
  intros [-> | ->]; destruct impl, useCRC, c; reflexivity.
Qed.

(** X15: fed, over a clean channel, with what [sendFile] writes for a
    file, [receiveFile] returns true with an output file that holds the
    input followed by the 0x1A padding of its last block, and has written
    the mode byte, one ACK per block and the ACK of the EOT — the very
    answers that make [sendFile] succeed.  Both receivers, both modes, any
    file, the empty one included. *)
Theorem receiveFile_clean_channel (impl : Implementation) (useCRC : bool)
    (src : list Z) (fuel : nat) (rest : list ReadOutcome)
    (t : list (list Z)) (c : list Z) :
  receiveFileOf impl (blocks_of src + fuel) useCRC true
    (mkWorld
       (concat (map reads_of_write (sender_frames useCRC src ++ [[EOT]]))
        ++ rest) t c)
  = ((Returned true,
      {| fail := false;
         contents :=
           src ++ repeat 0x1A (blocks_of src * BLOCK_SIZE - length src) |}),
     mkWorld rest
       (t ++ [mode_byte useCRC] :: repeat [ACK] (blocks_of src) ++ [[ACK]])
       (match impl with Procedural => c | Class => tl c end)).
Proof.
  change (concat (map reads_of_write (sender_frames useCRC src ++ [[EOT]])))
    with (clean_stream useCRC src 0 (blocks_of src)).
  rewrite receiveFileOf_start.
  pose proof (file_blocks_concat (blocks_of src) src eq_refl) as Hcat.
  destruct (blocks_of src) as [|n] eqn:En.
  - apply blocks_of_nil in En. subst src.
    rewrite clean_stream_end. cbn [app].
    rewrite (bind_run _ _ _ _ _
               (startPhase_first_read impl useCRC EOT rest t c
                  (or_intror eq_refl))).
    cbn [Z.eqb SOH EOT Pos.eqb ret repeat app Nat.mul Nat.sub length].
    now rewrite <- app_assoc.
  - set (stream := clean_stream useCRC src 0 (S n)).
    assert (Hstream : stream = ReadOk [SOH] :: tl stream)
      by (subst stream; rewrite clean_stream_frame; reflexivity).
    rewrite Hstream. cbn [app].
    rewrite (bind_run _ _ _ _ _
               (startPhase_first_read impl useCRC SOH (tl stream ++ rest) t c
                  (or_introl eq_refl))).
    cbn [Z.eqb SOH Pos.eqb]. unfold receiveBlocks, bind.
    destruct (receiveLoop_clean useCRC src n 0 fuel
                (initialReceiver (ofstream_open true)) rest
                (t ++ [[mode_byte useCRC]])
                (match impl with Procedural => c | Class => tl c end)
                eq_refl eq_refl eq_refl eq_refl) as (H1 & H2 & H3 & H4).
    fold stream in H1, H2, H3, H4.
    destruct (receiveLoop (S n + fuel) useCRC
                (initialReceiver (ofstream_open true))
                (mkWorld (tl stream ++ rest) (t ++ [[mode_byte useCRC]])
                   (match impl with Procedural => c | Class => tl c end)))
      as [s1 w1].
    cbn [fst snd ret] in *. rewrite H1, H4.
    destruct (file s1) as [f1 c1]. cbn [fail contents] in *. subst f1 c1.
    rewrite Hcat, <- app_assoc. reflexivity.
Qed.

(** ** What the receiver refuses *)

Lemma receiveBlock_to_trailer useCRC s bn comp m1 m2 data rest t c :
  headerByte s = SOH ->
  bn + comp = 255 ->
  length data = BLOCK_SIZE ->
  receiveBlock useCRC s
    (mkWorld (ReadOk (bn :: m1) :: ReadOk (comp :: m2) :: ReadOk data :: rest)
       t c)
  = (trailer <- readTrailer useCRC data ;;
     match trailer with
     | None => writeByte NAK ;; ret s
     | Some checksumValid =>
         if negb checksumValid then writeByte NAK ;; ret s
         else if (bn =? expectedBlock s - 1) && (expectedBlock s >? 1)
         then writeByte ACK ;; readNextHeader s
         else if bn =? expectedBlock s
         then writeByte ACK ;; readNextHeader (accept_block s data)
         else writeByte NAK ;; ret s
     end) (mkWorld rest t c).
Proof.
  intros Hhdr Hsum Hlen.
  unfold receiveBlock. rewrite Hhdr. cbn [Z.eqb SOH Pos.eqb].
  rewrite (bind_run _ _ _ _ _ (readByte_got _ _ _ _ _ _)).
  cbn [Z.leb Z.compare].
  rewrite (bind_run _ _ _ _ _ (readByte_got _ _ _ _ _ _)).
  cbn [Z.leb Z.compare].
  rewrite Hsum. cbn [Z.eqb Pos.eqb negb].
  rewrite (bind_run _ _ _ _ _ (readBlock_full _ _ _ _ Hlen)).
  rewrite Z.eqb_refl. cbn [negb]. reflexivity.
Qed.

(** X16: a block whose trailer could not be read or does not match the
    check value computed over the payload is answered NAK and changes
    nothing in the receiver: it is not written, whatever its number. *)
Theorem receiveBlock_rejects_bad_check
    (useCRC : bool) (s : Receiver) (bn comp : Z) (m1 m2 data : list Z)
    (rest : list ReadOutcome) (t : list (list Z)) (c : list Z)
    (v : option bool) (w3 : World) :
  headerByte s = SOH ->
  bn + comp = 255 ->
  length data = BLOCK_SIZE ->
  readTrailer useCRC data (mkWorld rest t c) = (v, w3) ->
  v <> Some true ->
  receiveBlock useCRC s
    (mkWorld (ReadOk (bn :: m1) :: ReadOk (comp :: m2) :: ReadOk data :: rest)
       t c)
  = (s, mkWorld (rx w3) (t ++ [[NAK]]) (clock w3)).
Proof.
  intros Hhdr Hsum Hlen Htrailer Hv.
  rewrite (receiveBlock_to_trailer _ _ _ _ _ _ _ _ _ _ Hhdr Hsum Hlen).
  rewrite (bind_run _ _ _ _ _ Htrailer).
  pose proof (readTrailer_tx _ _ _ _ _ Htrailer) as Ht. cbn [tx] in Ht.
  destruct v as [[|]|]; [now elim Hv | |];
    cbn [negb]; rewrite (bind_run _ _ _ _ _ (writeByte_any _ _)), Ht;
    reflexivity.
Qed.

Lemma receiveBlock_rejects_bad_check_witness :
  receiveBlock false (initialReceiver (ofstream_open true))
    (mkWorld [ReadOk [1]; ReadOk [254]; ReadOk block_a; ReadOk [0]] [[NAK]] [])
  = (initialReceiver (ofstream_open true), mkWorld [] [[NAK]; [NAK]] []).
Proof.
  apply (receiveBlock_rejects_bad_check false
           (initialReceiver (ofstream_open true)) 1 254 [] [] block_a
           [ReadOk [0]] [[NAK]] [] (Some false) (mkWorld [] [[NAK]] []));
    [reflexivity | reflexivity | reflexivity | vm_compute; reflexivity
     | discriminate].
Defined.

(** X17: a payload read that fails or brings fewer than 128 bytes is
    answered with the mode byte; the bytes that did arrive are dropped and
    nothing changes in the receiver. *)
Theorem receiveBlock_rejects_short_payload
    (useCRC : bool) (s : Receiver) (bn comp : Z) (m1 m2 : list Z)
    (o : ReadOutcome) (rest : list ReadOutcome) (t : list (list Z))
    (c : list Z) :
  headerByte s = SOH ->
  bn + comp = 255 ->
  match o with
  | ReadFailed => True
  | ReadOk data => (length data < BLOCK_SIZE)%nat
  end ->
  receiveBlock useCRC s
    (mkWorld (ReadOk (bn :: m1) :: ReadOk (comp :: m2) :: o :: rest) t c)
  = (s, mkWorld rest (t ++ [[mode_byte useCRC]]) c).
Proof.
  intros Hhdr Hsum Ho.
  unfold receiveBlock. rewrite Hhdr. cbn [Z.eqb SOH Pos.eqb].
  rewrite (bind_run _ _ _ _ _ (readByte_got _ _ _ _ _ _)).
  cbn [Z.leb Z.compare].
  rewrite (bind_run _ _ _ _ _ (readByte_got _ _ _ _ _ _)).
  cbn [Z.leb Z.compare].
  rewrite Hsum. cbn [Z.eqb Pos.eqb negb].
  unfold bind at 1, readWithTimeout, bind, ReadFile. cbn [rx tx clock].
  destruct o as [|data]; cbn [negb ret].
  - replace (-1 =? Z.of_nat BLOCK_SIZE) with false
      by (symmetry; apply Z.eqb_neq; lia).
    cbn [negb]. now rewrite announceMode_run.
  - rewrite firstn_all2 by lia.
    replace (Z.of_nat (length data) =? Z.of_nat BLOCK_SIZE) with false
      by (symmetry; apply Z.eqb_neq; lia).
    cbn [negb]. now rewrite announceMode_run.
Qed.

Lemma receiveBlock_rejects_short_payload_witness :
  receiveBlock true (initialReceiver (ofstream_open true))
    (mkWorld [ReadOk [1]; ReadOk [254]; ReadOk [7; 8; 9]; ReadOk [5]] [] [])
  = (initialReceiver (ofstream_open true),
     mkWorld [ReadOk [5]] [[C]] []).
Proof.
  apply (receiveBlock_rejects_short_payload true
           (initialReceiver (ofstream_open true)) 1 254 [] []
           (ReadOk [7; 8; 9]) [ReadOk [5]] [] []);
    [reflexivity | reflexivity | rewrite BLOCK_SIZE_eq; cbn; lia].
Defined.

(** X18: the duplicate rule does not reach across the wrap of the 8-bit
    block counter.  A receiver that expects block 0 (after block 255) or
    block 1 answers a valid repetition of the preceding number (255,
    respectively 0) with NAK instead of ACK, and changes nothing. *)
Theorem duplicate_not_recognised_at_wrap
    (useCRC : bool) (s : Receiver) (bn : Z) (buffer : list Z)
    (rest : list ReadOutcome) (t : list (list Z)) (c : list Z) :
  headerByte s = SOH ->
  length buffer = BLOCK_SIZE ->
  (expectedBlock s = 0 /\ bn = 255) \/ (expectedBlock s = 1 /\ bn = 0) ->
  receiveBlock useCRC s
    (mkWorld (tl (reads_of_write (packet useCRC bn buffer)) ++ rest) t c)
  = (s, mkWorld rest (t ++ [[NAK]]) c).
Proof.
  intros Hhdr Hlen Hwrap.
  rewrite (reads_of_packet _ _ _ Hlen). cbn [tl app].
  assert (Hsum : bn + u8 (255 - bn) = 255)
    by (destruct Hwrap as [[_ ->] | [_ ->]]; reflexivity).
  rewrite (receiveBlock_validated useCRC s bn _ [] [] buffer _ t c
             (mkWorld rest t c) Hhdr Hsum Hlen (readTrailer_of _ _ _ _ _)).
  destruct Hwrap as [[-> ->] | [-> ->]]; reflexivity.
Qed.

Lemma duplicate_not_recognised_at_wrap_witness :
  receiveBlock false
    {| file := ofstream_open true; expectedBlock := 0;
       headerByte := SOH; receiving := true |}
    (mkWorld (tl (reads_of_write (packet false 255 block_a)) ++ []) [] [])
  = ({| file := ofstream_open true; expectedBlock := 0;
        headerByte := SOH; receiving := true |},
     mkWorld [] [[NAK]] []).
Proof.
  apply (duplicate_not_recognised_at_wrap false
           {| file := ofstream_open true; expectedBlock := 0;
              headerByte := SOH; receiving := true |} 255 block_a [] [] []);
    [reflexivity | reflexivity | left; split; reflexivity].
Defined.

(** ** The start phase giving up *)

Lemma awaitStart_step_fail left useCRC o rest t c :
  no_start o = true ->
  awaitStart (S left) useCRC (mkWorld (o :: rest) t c)
  = awaitStart left useCRC (mkWorld rest (t ++ [[mode_byte useCRC]]) c).
Proof.
  intros Ho. cbn [awaitStart].
  rewrite (bind_run _ _ _ _ _ (writeByte_run _ _ _ _)).
  destruct (no_start_cases o Ho) as [-> | [-> | (b & m & -> & H1 & H2)]];
    try reflexivity.
  rewrite (bind_run _ _ _ _ _ (readByte_got _ _ _ _ _ _)).
  cbn [Z.gtb Z.compare]. now rewrite H1, H2.
Qed.

Lemma awaitStart_silent useCRC :
  forall left t c,
  awaitStart left useCRC (mkWorld [] t c)
  = (StartFailed, mkWorld [] (t ++ repeat [mode_byte useCRC] left) c).
Proof.
  induction left as [|left IH]; intros t c.
  - cbn. now rewrite app_nil_r.
  - cbn [awaitStart].
    rewrite (bind_run _ _ _ _ _ (writeByte_run _ _ _ _)).
    rewrite (bind_run _ _ _ _ _ (readByte_silent _ _ _)).
    cbn [Z.gtb Z.compare]. rewrite IH. cbn [repeat].
    now rewrite <- app_assoc.
Qed.

Lemma awaitStart_fails useCRC :
  forall (junk : list ReadOutcome) (left : nat) rest t c,
  Forall (fun o => no_start o = true) junk ->
  length junk = left \/ ((length junk < left)%nat /\ rest = []) ->
  awaitStart left useCRC (mkWorld (junk ++ rest) t c)
  = (StartFailed, mkWorld rest (t ++ repeat [mode_byte useCRC] left) c).
Proof.
  induction junk as [|o junk IH]; intros left rest t c Hjunk Hlen.
  - destruct Hlen as [<- | [_ ->]].
    + cbn. now rewrite app_nil_r.
    + apply awaitStart_silent.
  - inversion Hjunk as [|? ? Ho Hrest]; subst.
    cbn [length] in Hlen.
    destruct left as [|left]; [destruct Hlen as [H|[H _]]; lia|].
    cbn [app]. rewrite (awaitStart_step_fail _ _ _ _ _ _ Ho).
    rewrite IH;
      [| exact Hrest
       | destruct Hlen as [H|[H ->]];
         [left; lia | right; split; [lia | reflexivity]]].
    cbn [repeat]. now rewrite <- app_assoc.
Qed.

Lemma XModem_awaitStart_step_fail left useCRC startTime o rest t now later :
  no_start o = true ->
  XModem.awaitStart (S left) useCRC startTime
    (mkWorld (o :: rest) t (now :: later))
  = if XModem.minute_elapsed startTime now
    then (StartFailed, mkWorld rest (t ++ [[mode_byte useCRC]]) later)
    else XModem.awaitStart left useCRC startTime
           (mkWorld rest (t ++ [[mode_byte useCRC]]) later).
Proof.
  intros Ho. cbn [XModem.awaitStart].
  rewrite (bind_run _ _ _ _ _ (announceMode_run _ _ _ _)).
  destruct (no_start_cases o Ho) as [-> | [-> | (b & m & -> & H1 & H2)]].
  - unfold bind, readByteWithTimeout, readWithTimeout, bind, ReadFile,
      steady_now; cbn.
    now destruct (XModem.minute_elapsed startTime now).
  - unfold bind, readByteWithTimeout, readWithTimeout, bind, ReadFile,
      steady_now; cbn.
    now destruct (XModem.minute_elapsed startTime now).
  - rewrite (bind_run _ _ _ _ _ (readByte_got _ _ _ _ _ _)).
    cbn [Z.gtb Z.compare]. rewrite H1, H2.
    unfold bind, steady_now; cbn [clock rx tx].
    now destruct (XModem.minute_elapsed startTime now).
Qed.

Lemma XModem_awaitStart_fails useCRC startTime :
  forall (junk : list ReadOutcome) (left : nat) (readings : list Z)
         (last : Z) rest t later,
  Forall (fun o => no_start o = true) junk ->
  length junk = S (length readings) ->
  (length junk <= left)%nat ->
  Forall (fun now => XModem.minute_elapsed startTime now = false) readings ->
  XModem.minute_elapsed startTime last = true \/ length junk = left ->
  XModem.awaitStart left useCRC startTime
    (mkWorld (junk ++ rest) t (readings ++ last :: later))
  = (StartFailed,
     mkWorld rest (t ++ repeat [mode_byte useCRC] (length junk)) later).
Proof.
  induction junk as [|o junk IH];
    intros left readings last rest t later Hjunk Hlen Hleft Hr Hlast;
    [discriminate|].
  inversion Hjunk as [|? ? Ho Hrest]; subst.
  destruct left as [|left]; [cbn in Hleft; lia|].
  cbn [length] in *.
  destruct readings as [|now readings].
  - destruct junk; [|discriminate]. cbn [app length repeat].
    rewrite (XModem_awaitStart_step_fail _ _ _ _ _ _ _ _ Ho).
    destruct Hlast as [-> | Hl]; [reflexivity|].
    assert (left = 0%nat) by (cbn in Hl; lia). subst left.
    now destruct (XModem.minute_elapsed startTime last).
  - inversion Hr as [|? ? Hnow Hlater]; subst.
    cbn [app].
    rewrite (XModem_awaitStart_step_fail _ _ _ _ _ _ _ _ Ho), Hnow.
    rewrite IH; [| exact Hrest | cbn [length] in Hlen; lia | lia
                 | exact Hlater | destruct Hlast; [now left | right; lia]].
    cbn [repeat]. now rewrite <- app_assoc.
Qed.

(** X19: when six announcements in a row bring no SOH and no EOT — no
    byte, or another byte — or the peer falls silent before that, the
    procedural [receiveFile] returns false after exactly six mode bytes and
    has written nothing to the output file. *)
Theorem receiveFile_start_fails
    (useCRC openable : bool) (fuel : nat) (junk rest : list ReadOutcome)
    (t : list (list Z)) (c : list Z) :
  Forall (fun o => no_start o = true) junk ->
  length junk = 6%nat \/ ((length junk < 6)%nat /\ rest = []) ->
  receiveFile fuel useCRC openable (mkWorld (junk ++ rest) t c)
  = ((Returned false, {| fail := negb openable; contents := [] |}),
     mkWorld rest (t ++ repeat [mode_byte useCRC] 6) c).
Proof.
  intros Hjunk Hlen. unfold receiveFile.
  rewrite (bind_run _ _ _ _ _
             (awaitStart_fails useCRC junk 6 rest t c Hjunk Hlen)).
  reflexivity.
Qed.

Lemma receiveFile_start_fails_witness :
  receiveFile 4 true true (hears [ReadOk [0x55]; ReadFailed])
  = ((Returned false, {| fail := false; contents := [] |}),
     mkWorld [] (repeat [C] 6) []).
Proof.
  apply (receiveFile_start_fails true true 4 [ReadOk [0x55]; ReadFailed]
           [] [] []).
  - repeat constructor.
  - right. split; [cbn; lia | reflexivity].
Defined.

(** X20: the class gives the start phase one minute as well as six
    attempts: after an unsuccessful attempt whose clock reading is 60
    seconds or more past the start — or after the sixth — [receiveFile]
    returns false, having written one mode byte per attempt, even when the
    sender's SOH is the next byte to come. *)
Theorem XModem_receiveFile_start_times_out
    (useCRC : bool) (fuel : nat) (junk rest : list ReadOutcome)
    (t : list (list Z)) (startTime : Z) (readings : list Z) (last : Z)
    (later : list Z) :
  Forall (fun o => no_start o = true) junk ->
  length junk = S (length readings) ->
  (length junk <= 6)%nat ->
  Forall (fun now => XModem.minute_elapsed startTime now = false) readings ->
  XModem.minute_elapsed startTime last = true \/ length junk = 6%nat ->
  XModem.receiveFile fuel useCRC true
    (mkWorld (junk ++ rest) t (startTime :: readings ++ last :: later))
  = ((Returned false, {| fail := false; contents := [] |}),
     mkWorld rest (t ++ repeat [mode_byte useCRC] (length junk)) later).
Proof.
  intros Hjunk Hlen Hle Hr Hlast.
  unfold XModem.receiveFile. cbn [ofstream_open fail negb].
  unfold bind at 1, steady_now at 1. cbn [clock rx tx].
  rewrite (bind_run _ _ _ _ _
             (XModem_awaitStart_fails useCRC startTime junk 6 readings last
                rest t later Hjunk Hlen Hle Hr Hlast)).
  reflexivity.
Qed.

Lemma XModem_receiveFile_start_times_out_witness :
  XModem.receiveFile 4 false true
    (mkWorld [ReadOk []; ReadOk [0x55]; ReadOk [SOH]] []
       [0; 10000000000; 61000000000])
  = ((Returned false, {| fail := false; contents := [] |}),
     mkWorld [ReadOk [SOH]] [[NAK]; [NAK]] []).
Proof.
  apply (XModem_receiveFile_start_times_out false 4
           [ReadOk []; ReadOk [0x55]] [ReadOk [SOH]] [] 0 [10000000000]
           61000000000 []).
  - repeat constructor.
  - reflexivity.
  - cbn; lia.
  - repeat constructor.
  - left. reflexivity.
Defined.

(** ** The sink and the block counter along the loop *)

Lemma receiveBlock_progress useCRC s w :
  (file (fst (receiveBlock useCRC s w)) = file s
   /\ expectedBlock (fst (receiveBlock useCRC s w)) = expectedBlock s)
  \/ exists dataBlock, length dataBlock = BLOCK_SIZE
       /\ file (fst (receiveBlock useCRC s w))
          = ofstream_write (file s) dataBlock
       /\ expectedBlock (fst (receiveBlock useCRC s w))
          = u8 (expectedBlock s + 1).
Proof.
  unfold_receiver. run_reads; cbn [fst file expectedBlock accept_block
    set_headerByte stop_receiving]; auto; right; eauto.
Qed.

(** X21: the receiver only ever appends to the output file: whatever the
    channel delivers, the content after any number of iterations of the
    block-reception loop starts with the content before them. *)
Theorem sink_append_only (useCRC : bool) (n : nat) (s : Receiver)
    (w : World) :
  exists added,
    contents (file (fst (receiveLoop n useCRC s w)))
    = contents (file s) ++ added.
Proof.
  revert s w. induction n as [|n IH]; intros s w; cbn [receiveLoop].
  - exists []. now rewrite app_nil_r.
  - destruct (receiving s); [|exists []; now rewrite app_nil_r].
    unfold bind. pose proof (receiveBlock_file useCRC s w) as Hstep.
    destruct (receiveBlock useCRC s w) as [s1 w1]. cbn [fst] in Hstep.
    destruct (IH s1 w1) as [added Hadded]. rewrite Hadded.
    destruct Hstep as [-> | (d & _ & ->)]; [now exists added|].
    unfold ofstream_write. destruct (fail (file s)); [now exists added|].
    cbn [contents]. exists (d ++ added). now rewrite app_assoc.
Qed.

Lemma receiveBlock_counts_blocks useCRC s w :
  counts_blocks s -> counts_blocks (fst (receiveBlock useCRC s w)).
Proof.
  intros [Hfail Heb].
  destruct (receiveBlock_progress useCRC s w)
    as [[Hf He] | (d & Hd & Hf & He)]; unfold counts_blocks;
    rewrite Hf, He.
  - now split.
  - unfold ofstream_write. rewrite Hfail. cbn [fail contents].
    split; [reflexivity|]. rewrite Heb, length_app, Hd.
    replace (length (contents (file s)) + BLOCK_SIZE)%nat
      with (length (contents (file s)) + 1 * BLOCK_SIZE)%nat by lia.
    rewrite Nat.div_add by (pose proof BLOCK_SIZE_pos; lia).
    unfold u8. rewrite Zplus_mod_idemp_l. f_equal. lia.
Qed.

(** X22: with an opened output file, the block number the receiver
    expects is at every point one plus the number of blocks written so far,
    as an 8-bit value. *)
Theorem expectedBlock_counts_blocks (useCRC : bool) (n : nat) (w : World) :
  let s := fst (receiveLoop n useCRC (initialReceiver (ofstream_open true)) w)
  in expectedBlock s
     = u8 (1 + Z.of_nat (length (contents (file s)) / BLOCK_SIZE)).
Proof.
  cbn zeta.
  assert (H : forall n s w, counts_blocks s ->
                counts_blocks (fst (receiveLoop n useCRC s w))).
  { clear. induction n as [|n IH]; intros s w Hs; cbn [receiveLoop].
    - exact Hs.
    - destruct (receiving s); [|exact Hs]. unfold bind.
      pose proof (receiveBlock_counts_blocks useCRC s w Hs) as H1.
      destruct (receiveBlock useCRC s w) as [s1 w1]. now apply IH. }
  apply H. split; reflexivity.
Qed.

(** ** Concrete runs of the sender *)

Lemma blocks_of_300 : blocks_of (repeat 65 300) = 3%nat.
Proof. reflexivity. Qed.

Lemma sendFile_cancelled_witness :
  sendFile 2 (Some (repeat 65 300))
    (hears [ReadOk [C]; ReadOk [ACK]; ReadOk [CAN]; ReadOk [ACK]])
  = (Returned false,
     mkWorld [ReadOk [ACK]]
       [packet true 1 (file_block (repeat 65 300) 0);
        packet true 2 (file_block (repeat 65 300) 1)] []).
Proof.
  apply (sendFile_cancelled true (repeat 65 300) 1 0 [] [ReadOk [ACK]] [] []).
  rewrite blocks_of_300. lia.
Defined.

Lemma sendFile_counts_every_retry_witness :
  sendFile 1 (Some [1; 2; 3])
    (hears [ReadOk [NAK]; ReadOk []; ReadFailed; ReadOk [NAK]; ReadOk [0x55];
            ReadOk []; ReadOk []; ReadOk [C]; ReadOk [NAK]; ReadFailed;
            ReadOk [EOT]])
  = (Returned false,
     mkWorld [] (repeat (packet false 1 (file_block [1; 2; 3] 0)) 10) []).
Proof.
  apply (sendFile_counts_every_retry false [1; 2; 3] 0 0
           [ReadOk []; ReadFailed; ReadOk [NAK]; ReadOk [0x55];
            ReadOk []; ReadOk []; ReadOk [C]; ReadOk [NAK]; ReadFailed;
            ReadOk [EOT]] [] [] []).
  - apply blocks_of_lt. rewrite BLOCK_SIZE_eq. cbn. lia.
  - repeat constructor.
  - reflexivity.
Defined.

Lemma sendFile_EOT_unacknowledged_witness :
  sendFile 1 (Some [])
    (hears (ReadOk [NAK] :: repeat (ReadOk [CAN]) 10))
  = (Returned false, mkWorld [] (repeat [EOT] 10) []).
Proof.
  apply (sendFile_EOT_unacknowledged false [] 0 (repeat (ReadOk [CAN]) 10)
           [] [] []).
  - repeat constructor.
  - reflexivity.
Defined.

Lemma sendFile_skips_other_bytes_witness :
  sendFile 4 (Some [])
    (hears [ReadOk [0x55]; ReadOk []; ReadOk [ACK]; ReadOk [C]; ReadOk [ACK]])
  = sendBlocks 4 true [] 1 (hears [ReadOk [ACK]]).
Proof.
  apply (sendFile_skips_other_bytes true [] 0
           [ReadOk [0x55]; ReadOk []; ReadOk [ACK]] [] [ReadOk [ACK]] [] []).
  - repeat constructor.
  - cbn. rewrite <- Nat.ltb_lt. reflexivity.
Defined.

Lemma sendFile_not_initiated_witness :
  fst (sendFile 12 (Some [1; 2; 3]) (hears [ReadOk [ACK]; ReadOk [SOH]]))
  = Returned false
  /\ tx (snd (sendFile 12 (Some [1; 2; 3])
                (hears [ReadOk [ACK]; ReadOk [SOH]]))) = [].
Proof.
  apply (sendFile_not_initiated [1; 2; 3] 12
           (hears [ReadOk [ACK]; ReadOk [SOH]])).
  - repeat constructor.
  - cbn. rewrite <- Nat.leb_le. reflexivity.
Defined.

(** ** The command line *)

(** X23: the exit status of [main] does not tell whether the transfer
    succeeded: it is -1 exactly when the number of arguments is wrong — and
    then no byte was exchanged — and 0 in every other case in which [main]
    exits, after a failed transfer and for an unknown role too. *)
Theorem main_exit_status (fuel : nat) (fs : FileSystem)
    (argv : list String.string) (w : World) :
  let wrong := (length argv <? 2)%nat || (3 <? length argv)%nat in
  match fst (main fuel fs argv w) with
  | Exited status _ => status = if wrong then -1 else 0
  | NotExited => wrong = false
  end
  /\ (wrong = true -> main fuel fs argv w = (Exited (-1) [], w)).
Proof.
  cbn zeta. unfold main.
  change (S (length argv) <? 3)%nat with (length argv <? 2)%nat.
  change (4 <? S (length argv))%nat with (3 <? length argv)%nat.
  destruct ((length argv <? 2)%nat || (3 <? length argv)%nat);
    [split; reflexivity|].
  split; [|discriminate].
  destruct (String.eqb (nth 0 argv String.EmptyString) Args.R).
  - unfold bind.
    destruct (receiveFile fuel _ _ w) as [[[[|]|] f] w1]; reflexivity.
  - destruct (String.eqb (nth 0 argv String.EmptyString) Args.S);
      [|reflexivity].
    unfold bind.
    destruct (sendFile fuel _ w) as [[[|]|] w1]; reflexivity.
Qed.

(** A failed send: the file cannot be opened, the status is still 0. *)
Example main_failed_send_exits_0 :
  main 0 (mkFileSystem (fun _ => None) (fun _ => false))
    [Args.S; Args.R] (hears [])
  = (Exited 0 [SentBad], hears []).
Proof. reflexivity. Qed.

(** * The block-reception loop, iteration by iteration *)

(** An iteration that starts with an SOH header reads a frame and then
    either writes its request or decides on the block number. *)
Lemma receiveBlock_frame useCRC s w :
  headerByte s = SOH ->
  receiveBlock useCRC s w
  = (fr <- readFrame useCRC ;;
     match fr with
     | FrameFailed c => writeByte (request useCRC c) ;; ret s
     | FrameValid blockNumber dataBlock =>
         if (blockNumber =? expectedBlock s - 1) && (expectedBlock s >? 1)
         then writeByte ACK ;; readNextHeader s
         else if blockNumber =? expectedBlock s
         then writeByte ACK ;; readNextHeader (accept_block s dataBlock)
         else writeByte NAK ;; ret s
     end) w.
Proof.
  intros Hhdr. unfold receiveBlock, readFrame. rewrite Hhdr.
  cbn [Z.eqb SOH Pos.eqb]. unfold announceMode, request, mode_byte.
  destruct useCRC; unfold bind, ret;
    repeat (cbv beta iota;
            match goal with
            | |- context [readByteWithTimeout ?o ?x] =>
                destruct (readByteWithTimeout o x) as [[? ?] ?]
            | |- context [readWithTimeout ?n ?x] =>
                destruct (readWithTimeout n x) as [[? ?] ?]
            | |- context [readTrailer ?m ?d ?x] =>
                destruct (readTrailer m d x) as [[[|]|] ?]
            | |- context [if ?c then _ else _] => destruct c
            end); reflexivity.
Qed.

Lemma receiveBlock_condition useCRC s w c w' :
  headerByte s = SOH ->
  midBlockCondition useCRC (expectedBlock s) w = (Some c, w') ->
  receiveBlock useCRC s w = (s, snd (writeByte (request useCRC c) w')).
Proof.
  intros Hhdr H. rewrite (receiveBlock_frame _ _ _ Hhdr).
  unfold midBlockCondition, bind in *.
  destruct (readFrame useCRC w) as [[c0|bn d] w1].
  - cbn [ret] in H. inversion H; subst. reflexivity.
  - destruct ((bn =? expectedBlock s - 1) && (expectedBlock s >? 1)) eqn:E1;
      cbn [orb] in H; [discriminate|].
    destruct (bn =? expectedBlock s) eqn:E2; [discriminate|].
    cbn [ret] in H. inversion H; subst. reflexivity.
Qed.

Lemma receiveLoop_next n useCRC s w :
  receiving s = true ->
  receiveLoop (S n) useCRC s w
  = receiveLoop n useCRC (fst (receiveBlock useCRC s w))
      (snd (receiveBlock useCRC s w)).
Proof.
  intros H. cbn [receiveLoop]. rewrite H. unfold bind.
  now destruct (receiveBlock useCRC s w).
Qed.

Lemma receiveLoop_left n useCRC s w :
  receiving s = false -> receiveLoop n useCRC s w = (s, w).
Proof.
  intros H. destruct n; cbn [receiveLoop]; [reflexivity | now rewrite H].
Qed.

Lemma receiveLoop_add useCRC :
  forall (k n : nat) s w,
  receiveLoop (k + n) useCRC s w
  = receiveLoop n useCRC (fst (receiveLoop k useCRC s w))
      (snd (receiveLoop k useCRC s w)).
Proof.
  induction k as [|k IH]; intros n s w; [reflexivity|].
  cbn [Nat.add]. destruct (receiving s) eqn:E.
  - now rewrite !(receiveLoop_next _ _ _ _ E), IH.
  - rewrite !(receiveLoop_left _ _ _ _ E). cbn [fst snd].
    now rewrite ?(receiveLoop_left _ _ _ _ E).
Qed.

(** Once the loop is left the state stays: a receiver still in the loop
    after more iterations was in it after fewer. *)
Lemma receiveLoop_still_receiving useCRC (m j : nat) s w :
  receiving (fst (receiveLoop (m + j) useCRC s w)) = true ->
  receiving (fst (receiveLoop m useCRC s w)) = true.
Proof.
  rewrite receiveLoop_add.
  destruct (receiving (fst (receiveLoop m useCRC s w))) eqn:E;
    [reflexivity|].
  rewrite (receiveLoop_left _ _ _ _ E). cbn [fst]. now rewrite E.
Qed.

Lemma readFrame_tx useCRC w fr w' :
  readFrame useCRC w = (fr, w') -> tx w' = tx w.
Proof.
  unfold readFrame, bind.
  repeat match goal with
         | |- context [readByteWithTimeout ?o ?x] =>
             let E := fresh "E" in
             destruct (readByteWithTimeout o x) as [[? ?] ?] eqn:E;
             apply readByteWithTimeout_run in E;
             destruct E as (? & _)
         | |- context [readWithTimeout ?n ?x] =>
             let E := fresh "E" in
             destruct (readWithTimeout n x) as [[? ?] ?] eqn:E;
             apply readWithTimeout_run in E;
             destruct E as (? & _)
         | |- context [readTrailer ?m ?d ?x] =>
             let E := fresh "E" in
             destruct (readTrailer m d x) as [[[|]|] ?] eqn:E;
             apply readTrailer_tx in E
         | |- context [if ?c then _ else _] => destruct c
         end; cbn [ret]; intros Hfin; inversion Hfin; subst; congruence.
Qed.

Lemma midBlockCondition_tx useCRC expected w v w' :
  midBlockCondition useCRC expected w = (v, w') -> tx w' = tx w.
Proof.
  unfold midBlockCondition, bind.
  destruct (readFrame useCRC w) as [fr w0] eqn:Ef.
  apply readFrame_tx in Ef.
  destruct fr as [c|bn d]; cbn [ret];
    [|destruct (((bn =? expected - 1) && (expected >? 1))
                || (bn =? expected))];
    intros H; inversion H; subst; exact Ef.
Qed.

(** Conditions in a row leave the receiver where it was and add one
    request each. *)
Lemma receiveLoop_persistently useCRC :
  forall (n : nat) s w,
  receiving s = true -> headerByte s = SOH ->
  persistently n useCRC (expectedBlock s) w = true ->
  fst (receiveLoop n useCRC s w) = s
  /\ exists requests,
       length requests = n
       /\ Forall (fun r => r = [mode_byte useCRC] \/ r = [NAK]) requests
       /\ tx (snd (receiveLoop n useCRC s w)) = tx w ++ requests.
Proof.
  induction n as [|n IH]; intros s w Hrcv Hhdr Hp.
  - cbn. split; [reflexivity|]. exists []. now rewrite app_nil_r.
  - cbn [persistently] in Hp.
    destruct (midBlockCondition useCRC (expectedBlock s) w)
      as [[c|] w1] eqn:E; [|discriminate].
    rewrite (receiveLoop_next _ _ _ _ Hrcv).
    rewrite (receiveBlock_condition _ _ _ _ _ Hhdr E). cbn [fst snd].
    destruct (IH s (snd (writeByte (request useCRC c) w1)) Hrcv Hhdr Hp)
      as (Hs & requests & Hlen & Hall & Htx).
    split; [exact Hs|].
    exists ([request useCRC c] :: requests).
    split; [cbn [length]; lia|]. split.
    + constructor; [|exact Hall]. destruct c; cbn [request]; auto.
    + rewrite Htx. cbn [writeByte writeAll WriteFile snd tx].
      rewrite (midBlockCondition_tx _ _ _ _ _ E), <- app_assoc.
      reflexivity.
Qed.

(** The loop is left only with an EOT header. *)
Lemma receiveBlock_left_on_EOT useCRC s w :
  receiving s = true ->
  receiving (fst (receiveBlock useCRC s w)) = false ->
  headerByte (fst (receiveBlock useCRC s w)) = EOT.
Proof.
  intros Hrcv. unfold_receiver. run_reads;
    cbn [fst receiving headerByte accept_block set_headerByte
         stop_receiving];
    intros Hleft; try congruence;
    try (apply Z.eqb_eq; assumption).
Qed.

Lemma receiveLoop_left_on_EOT useCRC :
  forall (n : nat) s w,
  receiving s = true ->
  receiving (fst (receiveLoop n useCRC s w)) = false ->
  headerByte (fst (receiveLoop n useCRC s w)) = EOT.
Proof.
  induction n as [|n IH]; intros s w Hrcv; [cbn; congruence|].
  rewrite (receiveLoop_next _ _ _ _ Hrcv).
  destruct (receiving (fst (receiveBlock useCRC s w))) eqn:E.
  - now apply IH.
  - rewrite (receiveLoop_left _ _ _ _ E). cbn [fst]. intros _.
    now apply receiveBlock_left_on_EOT.
Qed.

(** ** What the reads of a valid frame were *)

Lemma readByteWithTimeout_got old w result byte w' :
  readByteWithTimeout old w = ((result, byte), w') ->
  (result <=? 0) = false ->
  exists more, rx w = ReadOk (byte :: more) :: rx w'.
Proof.
  intros E Hres. apply readByteWithTimeout_run in E.
  destruct E as (_ & _ & Hrx & [[Hle _] | (_ & o & Hhd & Hb)]);
    [apply Z.leb_gt in Hres; lia|].
  destruct (rx w) as [|o' l]; [discriminate|].
  cbn [hd_error tl] in *. inversion Hhd; subst o'.
  destruct o as [|[|b more]]; try discriminate.
  cbn in Hb. inversion Hb; subst. now exists more.
Qed.

Lemma readWithTimeout_full w result buffer w' :
  readWithTimeout BLOCK_SIZE w = ((result, buffer), w') ->
  (result =? Z.of_nat BLOCK_SIZE) = true ->
  exists bytes, rx w = ReadOk bytes :: rx w'
                /\ buffer = firstn BLOCK_SIZE bytes
                /\ length buffer = BLOCK_SIZE.
Proof.
  intros E Hres. apply Z.eqb_eq in Hres. pose proof BLOCK_SIZE_pos as Hpos.
  unfold readWithTimeout, bind, ReadFile in E.
  destruct w as [r t c]. cbn [rx tx clock] in *.
  destruct r as [|[|bytes] r1]; cbn [negb ret length] in E;
    inversion E; subst; clear E; cbn [rx]; try lia.
  exists bytes. split; [reflexivity|].
  assert (Hlen : length (firstn BLOCK_SIZE bytes) = BLOCK_SIZE) by lia.
  rewrite Hlen, Nat.sub_diag. cbn [repeat]. rewrite app_nil_r.
  split; [reflexivity | exact Hlen].
Qed.

Lemma readTrailer_match useCRC payload w w' :
  readTrailer useCRC payload w = (Some true, w') ->
  exists trailer, rx w = trailer ++ rx w'
                  /\ trailer_reads_match useCRC payload trailer.
Proof.
  unfold readTrailer, trailer_reads_match, bind. destruct useCRC.
  - destruct (readByteWithTimeout 0 w) as [[rh hi] w1] eqn:E1.
    destruct (rh <=? 0) eqn:Hh; [discriminate|].
    destruct (readByteWithTimeout 0 w1) as [[rl lo] w2] eqn:E2.
    destruct (rl <=? 0) eqn:Hl; [discriminate|].
    cbn [ret]. intros H. inversion H as [[Hv Hw]]. subst w2.
    apply Z.eqb_eq in Hv.
    destruct (readByteWithTimeout_got _ _ _ _ _ E1 Hh) as [m3 H1].
    destruct (readByteWithTimeout_got _ _ _ _ _ E2 Hl) as [m4 H2].
    exists [ReadOk (hi :: m3); ReadOk (lo :: m4)]. split.
    + rewrite H1, H2. reflexivity.
    + exists hi, m3, lo, m4. split; [reflexivity | exact Hv].
  - destruct (readByteWithTimeout 0 w) as [[r x] w1] eqn:E1.
    destruct (r <=? 0) eqn:Hr; [discriminate|].
    cbn [ret]. intros H. inversion H as [[Hv Hw]]. subst w1.
    apply Z.eqb_eq in Hv.
    destruct (readByteWithTimeout_got _ _ _ _ _ E1 Hr) as [m3 H1].
    exists [ReadOk (x :: m3)]. split; [rewrite H1; reflexivity|].
    exists x, m3. split; [reflexivity | exact Hv].
Qed.

(** [readFrame] reports a valid frame only when the reads were those of a
    block number, its complement, a full payload and a trailer matching the
    check value of that payload. *)
Lemma readFrame_valid useCRC w blockNumber payload w' :
  readFrame useCRC w = (FrameValid blockNumber payload, w') ->
  valid_frame_reads useCRC (rx w) blockNumber payload (rx w').
Proof.
  unfold readFrame, bind.
  destruct (readByteWithTimeout 0 w) as [[r1 bn] w1] eqn:E1.
  destruct (r1 <=? 0) eqn:H1; [discriminate|].
  destruct (readByteWithTimeout 0 w1) as [[r2 comp] w2] eqn:E2.
  destruct (r2 <=? 0) eqn:H2; [discriminate|].
  destruct (bn + comp =? 255) eqn:Hsum; cbn [negb]; [|discriminate].
  destruct (readWithTimeout BLOCK_SIZE w2) as [[dr d] w3] eqn:E3.
  destruct (dr =? Z.of_nat BLOCK_SIZE) eqn:Hd; cbn [negb]; [|discriminate].
  destruct (readTrailer useCRC d w3) as [[[|]|] w4] eqn:E4;
    cbn [negb ret]; try discriminate.
  intros H. inversion H; subst.
  destruct (readByteWithTimeout_got _ _ _ _ _ E1 H1) as [m1 R1].
  destruct (readByteWithTimeout_got _ _ _ _ _ E2 H2) as [m2 R2].
  destruct (readWithTimeout_full _ _ _ _ E3 Hd) as (bytes & R3 & Hbuf & Hlen).
  destruct (readTrailer_match _ _ _ _ E4) as (trailer & R4 & Hmatch).
  exists m1, comp, m2, bytes, trailer.
  rewrite R1, R2, R3, R4. apply Z.eqb_eq in Hsum.
  repeat split; first [assumption | rewrite Hlen; reflexivity].
Qed.

(** What an iteration does to the sink: nothing, or one append of the
    payload of a valid frame that carries the expected number. *)
Lemma receiveBlock_appends_validated useCRC s w :
  contents (file (fst (receiveBlock useCRC s w))) = contents (file s)
  \/ exists blockNumber payload rest,
       headerByte s = SOH
       /\ valid_frame_reads useCRC (rx w) blockNumber payload rest
       /\ blockNumber = expectedBlock s
       /\ contents (file (fst (receiveBlock useCRC s w)))
          = contents (file s) ++ payload.
Proof.
  destruct (Z.eqb_spec (headerByte s) SOH) as [Hhdr|Hne].
  - rewrite (receiveBlock_frame _ _ _ Hhdr). unfold bind.
    destruct (readFrame useCRC w) as [[c|bn d] w1] eqn:Ef.
    + left. reflexivity.
    + destruct ((bn =? expectedBlock s - 1) && (expectedBlock s >? 1)).
      * left. rewrite writeByte_any.
        now destruct (readNextHeader_run s
                        (mkWorld (rx w1) (tx w1 ++ [[ACK]]) (clock w1)))
          as (-> & _).
      * destruct (Z.eqb_spec bn (expectedBlock s)) as [Hbn|_];
          [|left; reflexivity].
        rewrite writeByte_any.
        destruct (readNextHeader_run (accept_block s d)
                    (mkWorld (rx w1) (tx w1 ++ [[ACK]]) (clock w1)))
          as (-> & _).
        cbn [accept_block file]. unfold ofstream_write.
        destruct (fail (file s)); [now left|].
        right. exists bn, d, (rx w1).
        repeat split; [exact Hhdr | now apply readFrame_valid | exact Hbn].
  - left. unfold receiveBlock.
    rewrite (proj2 (Z.eqb_neq _ _) Hne).
    destruct (headerByte s =? EOT); [reflexivity|].
    unfold bind. rewrite writeByte_any.
    now destruct (readByteWithTimeout (headerByte s) _) as [[? ?] ?].
Qed.

Lemma tl_suffix {A : Type} (l' l : list A) :
  (exists c, l = c ++ l') -> exists c, l = c ++ tl l'.
Proof.
  intros [c ->]. destruct l' as [|x l'].
  - now exists c.
  - exists (c ++ [x]). now rewrite <- app_assoc.
Qed.

(** Reads only consume: what is left to read after an iteration is a
    suffix of what was left before it. *)
Lemma receiveBlock_consumes useCRC s w :
  exists consumed, rx w = consumed ++ rx (snd (receiveBlock useCRC s w)).
Proof.
  unfold_receiver. run_reads; cbn [snd rx];
    repeat match goal with
           | H : rx ?a = tl _ |- _ => rewrite H in *; clear H
           end;
    repeat apply tl_suffix; now exists [].
Qed.

Lemma validated_in_later useCRC consumed answers payload :
  validated_in useCRC answers payload ->
  validated_in useCRC (consumed ++ answers) payload.
Proof.
  intros (before & after & bn & rest & -> & H).
  exists (consumed ++ before), after, bn, rest.
  split; [now rewrite app_assoc | exact H].
Qed.

(** After any number of iterations the sink holds what it held before
    followed by payloads that were each validated on the channel. *)
Lemma receiveLoop_appends_validated useCRC :
  forall n s w,
  exists payloads,
    contents (file (fst (receiveLoop n useCRC s w)))
    = contents (file s) ++ concat payloads
    /\ Forall (validated_in useCRC (rx w)) payloads.
Proof.
  induction n as [|n IH]; intros s w; cbn [receiveLoop].
  - exists []. cbn [concat fst ret]. now rewrite app_nil_r.
  - destruct (receiving s);
      [|exists []; cbn [concat fst ret]; now rewrite app_nil_r].
    unfold bind.
    pose proof (receiveBlock_appends_validated useCRC s w) as Hstep.
    destruct (receiveBlock_consumes useCRC s w) as [consumed Hrx].
    destruct (receiveBlock useCRC s w) as [s1 w1]. cbn [fst snd] in *.
    destruct (IH s1 w1) as (payloads & Hc & Hall).
    assert (Hlater : Forall (validated_in useCRC (rx w)) payloads).
    { rewrite Hrx. revert Hall. apply Forall_impl.
      intros p. apply validated_in_later. }
    destruct Hstep as [E | (bn & payload & rest & _ & Hv & _ & E)].
    + exists payloads. now rewrite Hc, E.
    + exists (payload :: payloads). split.
      * rewrite Hc, E. cbn [concat]. now rewrite <- app_assoc.
      * constructor; [|exact Hlater].
        exists [], (rx w), bn, rest. split; [reflexivity | exact Hv].
Qed.

(** C9: every write the receiver makes to the sink appends exactly the
    128-byte payload of one fully validated block.  An iteration of the
    block-reception loop either leaves the file as it was, or it ran under
    header SOH, read from the channel a block number equal to the expected
    one, its complement (the two adding up to 255), a full 128-byte payload
    and a trailer equal to the checksum or CRC-16 of that payload, and
    appended exactly that payload.  So after any number of iterations the
    file holds what it held before followed by validated payloads, and at
    every point of [receiveFile] - after any number of iterations, finished
    or not, in both implementations - its length is a multiple of 128. *)
Theorem sink_holds_whole_blocks
    (impl : Implementation) (useCRC openable : bool) :
  (forall (s : Receiver) (w : World),
     contents (file (fst (receiveBlock useCRC s w))) = contents (file s)
     \/ exists blockNumber payload rest,
          headerByte s = SOH
          /\ valid_frame_reads useCRC (rx w) blockNumber payload rest
          /\ blockNumber = expectedBlock s
          /\ length payload = 128%nat
          /\ contents (file (fst (receiveBlock useCRC s w)))
             = contents (file s) ++ payload)
  /\ (forall (n : nat) (s : Receiver) (w : World),
      exists payloads,
        contents (file (fst (receiveLoop n useCRC s w)))
        = contents (file s) ++ concat payloads
        /\ Forall (fun payload => length payload = 128%nat
                                  /\ validated_in useCRC (rx w) payload)
             payloads)
  /\ (forall (fuel : nat) (w : World),
      exists k : nat,
        length (contents
                  (snd (fst (receiveFileOf impl fuel useCRC openable w))))
        = (k * 128)%nat).
Proof.
  split; [|split].
  - intros s w.
    destruct (receiveBlock_appends_validated useCRC s w)
      as [E | (bn & payload & rest & Hhdr & Hv & Hbn & E)]; [now left|].
    right. exists bn, payload, rest.
    repeat split; try assumption.
    destruct Hv as (? & ? & ? & ? & ? & _ & _ & _ & Hlen & _). exact Hlen.
  - intros n s w.
    destruct (receiveLoop_appends_validated useCRC n s w)
      as (payloads & E & Hall).
    exists payloads. split; [exact E|].
    revert Hall. apply Forall_impl. intros p Hp. split; [|exact Hp].
    destruct Hp as (? & ? & ? & ? & _ & Hv).
    destruct Hv as (? & ? & ? & ? & ? & _ & _ & _ & Hlen & _). exact Hlen.
  - intros fuel w. rewrite receiveFileOf_start. unfold bind.
    destruct (startPhase impl useCRC (ofstream_open openable) w)
      as [[| |] w1]; cbn [ret fst snd];
      try (exists 0%nat; reflexivity).
    unfold receiveBlocks, bind.
    pose proof (receiveLoop_whole useCRC fuel
                  (initialReceiver (ofstream_open openable)) w1) as H.
    destruct (receiveLoop fuel useCRC
                (initialReceiver (ofstream_open openable)) w1) as [s1 w2].
    cbn [fst snd ret] in *. apply H. now exists 0%nat.
Qed.

(** ** Retries are not counted *)

(** The requests written by conditions in a row are those of the
    conditions, one each, in order. *)
Lemma receiveLoop_requests useCRC :
  forall (n : nat) s w,
  receiving s = true -> headerByte s = SOH ->
  persistently n useCRC (expectedBlock s) w = true ->
  length (conditions n useCRC (expectedBlock s) w) = n
  /\ tx (snd (receiveLoop n useCRC s w))
     = tx w ++ map (fun c => [request useCRC c])
                 (conditions n useCRC (expectedBlock s) w).
Proof.
  induction n as [|n IH]; intros s w Hrcv Hhdr Hp.
  - cbn. split; [reflexivity | now rewrite app_nil_r].
  - cbn [persistently conditions] in *.
    destruct (midBlockCondition useCRC (expectedBlock s) w)
      as [[c|] w1] eqn:E; [|discriminate].
    rewrite (receiveLoop_next _ _ _ _ Hrcv).
    rewrite (receiveBlock_condition _ _ _ _ _ Hhdr E). cbn [fst snd].
    destruct (IH s (snd (writeByte (request useCRC c) w1)) Hrcv Hhdr Hp)
      as (Hlen & Htx).
    split; [cbn [length]; lia|].
    rewrite Htx. cbn [writeByte writeAll WriteFile snd tx map].
    rewrite (midBlockCondition_tx _ _ _ _ _ E), <- app_assoc.
    reflexivity.
Qed.

(** While the channel keeps producing conditions the receiver has not
    returned. *)
Lemma receiveFileOf_persistently
    (impl : Implementation) (useCRC openable : bool) (k n : nat)
    (w w1 wk : World) (sk : Receiver) :
  startPhase impl useCRC (ofstream_open openable) w = (StartSOH, w1) ->
  receiveLoop k useCRC (initialReceiver (ofstream_open openable)) w1
  = (sk, wk) ->
  receiving sk = true ->
  headerByte sk = SOH ->
  persistently n useCRC (expectedBlock sk) wk = true ->
  forall fuel, (fuel <= k + n)%nat ->
  fst (fst (receiveFileOf impl fuel useCRC openable w)) = Running.
Proof.
  intros Hstart Hk Hrcv Hhdr Hp fuel Hfuel.
  rewrite (receiveFileOf_loop _ _ _ _ _ _ Hstart).
  unfold receiveBlocks, bind.
  assert (H : receiving (fst (receiveLoop fuel useCRC
                (initialReceiver (ofstream_open openable)) w1)) = true).
  { apply (receiveLoop_still_receiving useCRC fuel (k + n - fuel)).
    replace (fuel + (k + n - fuel))%nat with (k + n)%nat by lia.
    rewrite receiveLoop_add, Hk. cbn [fst snd].
    now rewrite (proj1 (receiveLoop_persistently useCRC n sk wk
                          Hrcv Hhdr Hp)). }
  destruct (receiveLoop fuel useCRC
              (initialReceiver (ofstream_open openable)) w1) as [s1 w2].
  cbn [fst ret] in *. now rewrite H.
Qed.

(** A channel gone silent produces the first condition for ever. *)
Lemma persistently_silent useCRC expected :
  forall (n : nat) w, rx w = [] -> persistently n useCRC expected w = true.
Proof.
  induction n as [|n IH]; intros [r t c] Hrx; [reflexivity|].
  cbn [rx] in Hrx. subst r. cbn [persistently].
  assert (E : midBlockCondition useCRC expected (mkWorld [] t c)
              = (Some NumberReadFailed, mkWorld [] t c)) by reflexivity.
  rewrite E. apply IH. reflexivity.
Qed.

(** Frames that are valid but carry number 4, with payloads and trailers
    made of byte 0x04: each one is answered by NAK, and the receiver is
    still in its loop whatever the number of iterations. *)
Example receiver_hangs_on_misnumbered_frames :
  forall fuel,
  fst (fst (receiveFile fuel false true
              (hears ([ReadOk [SOH]]
                      ++ concat (repeat (frame_reads false 4 block_eot) 10)))))
  = Running.
Proof.
  intros fuel.
  apply (receiveFileOf_persistently Procedural false true 10 fuel _
           (mkWorld (concat (repeat (frame_reads false 4 block_eot) 10))
              [[NAK]] [])
           (mkWorld [] (repeat [NAK] 11) [])
           (initialReceiver (ofstream_open true)));
    try reflexivity; [|lia].
  now apply persistently_silent.
Qed.

(** A sender that stops after its fourth block: the receiver has stored
    four blocks and asks for the fifth for ever. *)
Example receiver_hangs_when_sender_stops :
  forall fuel,
  fst (fst (receiveFileOf Class fuel true true
              (hears ([ReadOk [SOH]]
                      ++ frame_reads true 1 block_a ++ [ReadOk [SOH]]
                      ++ frame_reads true 2 block_eot ++ [ReadOk [SOH]]
                      ++ frame_reads true 3 block_ff ++ [ReadOk [SOH]]
                      ++ frame_reads true 4 block_eot))))
  = Running.
Proof.
  intros fuel.
  eapply (receiveFileOf_persistently Class true true 4 fuel);
    [reflexivity | vm_compute; reflexivity | reflexivity | reflexivity
    | now apply persistently_silent | lia].
Qed.

(** C1 (amended): the receiver has no per-block retry budget.  In the
    block-reception loop a recoverable mid-block condition (failed read of
    the block number or of its complement, complement mismatch, short
    payload read, failed trailer read, checksum/CRC mismatch, out-of-sequence
    block number) leaves the receiver as it was and writes one request for
    retransmission; nothing is counted.  So once the start phase has seen
    SOH, on every channel input that from some iteration [k] of the loop on
    produces such a condition in each of the next [n] iterations,
    [receiveFile] has not returned after any number of iterations up to
    [k + n]: it has reported neither failure nor success, it is in the state
    it had after [k] iterations, and it has written exactly the [n] requests
    of the conditions met.  (When the input produces conditions for every
    [n], [receiveFile] never returns.)  The loop is left only with an EOT
    header, and on an input where no read hands over EOT as its first byte
    it is never left.  Both implementations. *)
Theorem receiver_retries_unbounded
    (impl : Implementation) (useCRC openable : bool) (k n : nat)
    (w w1 wk : World) (sk : Receiver) :
  startPhase impl useCRC (ofstream_open openable) w = (StartSOH, w1) ->
  receiveLoop k useCRC (initialReceiver (ofstream_open openable)) w1
  = (sk, wk) ->
  receiving sk = true ->
  headerByte sk = SOH ->
  persistently n useCRC (expectedBlock sk) wk = true ->
  (forall fuel, (fuel <= k + n)%nat ->
     fst (fst (receiveFileOf impl fuel useCRC openable w)) = Running)
  /\ fst (receiveLoop (k + n) useCRC
            (initialReceiver (ofstream_open openable)) w1) = sk
  /\ length (conditions n useCRC (expectedBlock sk) wk) = n
  /\ tx (snd (receiveLoop (k + n) useCRC
                (initialReceiver (ofstream_open openable)) w1))
     = tx wk ++ map (fun c => [request useCRC c])
                  (conditions n useCRC (expectedBlock sk) wk)
  /\ (forall s w0 c w',
        headerByte s = SOH ->
        midBlockCondition useCRC (expectedBlock s) w0 = (Some c, w') ->
        receiveBlock useCRC s w0
        = (s, snd (writeByte (request useCRC c) w')))
  /\ (forall m,
        receiving (fst (receiveLoop m useCRC
                          (initialReceiver (ofstream_open openable)) w1))
        = false ->
        headerByte (fst (receiveLoop m useCRC
                           (initialReceiver (ofstream_open openable)) w1))
        = EOT)
  /\ (Forall (fun o => not_EOT o = true) (rx w1) ->
      forall fuel,
        fst (fst (receiveFileOf impl fuel useCRC openable w)) = Running).
Proof.
  intros Hstart Hk Hrcv Hhdr Hp.
  pose proof (receiveLoop_persistently useCRC n sk wk Hrcv Hhdr Hp)
    as (Hs & _).
  pose proof (receiveLoop_requests useCRC n sk wk Hrcv Hhdr Hp)
    as (Hlen & Htx).
  repeat split.
  - now apply (receiveFileOf_persistently impl useCRC openable k n w w1 wk sk).
  - rewrite receiveLoop_add, Hk. exact Hs.
  - exact Hlen.
  - rewrite receiveLoop_add, Hk. exact Htx.
  - intros s w0 c w'. apply receiveBlock_condition.
  - intros m. now apply receiveLoop_left_on_EOT.
  - intros Hrx fuel.
    now apply (receiveFileOf_without_EOT impl useCRC openable fuel w w1).
Qed.

Lemma receiver_retries_unbounded_witness :
  fst (fst (receiveFileOf Class 10 true true (hears troubled_answers)))
  = Running
  /\ conditions 9 true 2
       (snd (receiveLoop 1 true (initialReceiver (ofstream_open true))
               (mkWorld (tl troubled_answers) [[C]] [])))
     = [ShortPayload; ComplementMismatch; OutOfSequence; CheckMismatch;
        ComplementReadFailed; NumberReadFailed; TrailerReadFailed;
        NumberReadFailed; NumberReadFailed]
  /\ tx (snd (receiveLoop 10 true (initialReceiver (ofstream_open true))
                (mkWorld (tl troubled_answers) [[C]] [])))
     = [[C]; [ACK]; [C]; [C]; [NAK]; [NAK]; [C]; [C]; [NAK]; [C]; [C]].
Proof.
  assert (Hstart : startPhase Class true (ofstream_open true)
                     (hears troubled_answers)
                   = (StartSOH, mkWorld (tl troubled_answers) [[C]] []))
    by reflexivity.
  assert (Hk : receiveLoop 1 true (initialReceiver (ofstream_open true))
                 (mkWorld (tl troubled_answers) [[C]] [])
               = (fst (receiveLoop 1 true
                         (initialReceiver (ofstream_open true))
                         (mkWorld (tl troubled_answers) [[C]] [])),
                  snd (receiveLoop 1 true
                         (initialReceiver (ofstream_open true))
                         (mkWorld (tl troubled_answers) [[C]] []))))
    by apply surjective_pairing.
  destruct (receiver_retries_unbounded Class true true 1 9 _ _ _ _
              Hstart Hk)
    as (Hrun & _ & _ & Htx & _); [reflexivity | reflexivity | reflexivity|].
  split; [apply Hrun; lia|]. split; [reflexivity|].
  change (1 + 9)%nat with 10%nat in Htx. rewrite Htx. reflexivity.
Defined.
